(** * acd_cli node cache: the query mixin of [acdcli/cache/query.py]

    A shallow embedding of the [Node] class and of [QueryMixin], the
    read side of the local metadata cache, together with the store
    relations its SQL statements read.  The object [self] (connection,
    root id, the two cache dictionaries) is threaded explicitly; every
    method is a state transformer over it that may return, raise, or
    run out of recursion fuel.

    The methods are modelled as they run in one thread: the cache lock
    and the cursor context managers have no effect of their own there.
    The lazy parsing of the two timestamps ([created], [modified]) is
    left out; the timestamps are kept as the strings of the row. *)

From Stdlib Require Import String Ascii ZArith List Lia Bool.
From stdpp Require Import gmap strings list.

Local Open Scope string_scope.
Local Open Scope list_scope.

(** ** Python strings and [os.path] (posixpath) *)

Module Path.

Definition sep : ascii := "/"%char.

Definition is_sep (c : ascii) : bool := Ascii.eqb c sep.

(** [p.rfind('/') + 1]: one past the index of the last separator,
    [0] when there is none. *)
Fixpoint rfind_succ (p : string) : nat :=
  match p with
  | EmptyString => 0
  | String c p' =>
      match rfind_succ p' with
      | S j => S (S j)
      | O => if is_sep c then 1 else 0
      end
  end.

(** Slices [p[:i]] and [p[i:]]. *)
Definition slice_to (i : nat) (p : string) : string := substring 0 i p.
Definition slice_from (i : nat) (p : string) : string :=
  substring i (String.length p - i) p.

(** [head == sep * len(head)] *)
Fixpoint all_sep (p : string) : bool :=
  match p with
  | EmptyString => true
  | String c p' => is_sep c && all_sep p'
  end.

(** [head.rstrip('/')] *)
Fixpoint rstrip (p : string) : string :=
  match p with
  | EmptyString => EmptyString
  | String c p' =>
      match rstrip p' with
      | EmptyString => if is_sep c then EmptyString else String c EmptyString
      | r => String c r
      end
  end.

Definition nonempty (s : string) : bool :=
  match s with EmptyString => false | _ => true end.

(** [posixpath.split]:
    i = p.rfind(sep) + 1; head, tail = p[:i], p[i:];
    if head and head != sep*len(head): head = head.rstrip(sep) *)
Definition split (p : string) : string * string :=
  let i := rfind_succ p in
  let head := slice_to i p in
  let tail := slice_from i p in
  let head := if nonempty head && negb (all_sep head) then rstrip head else head in
  (head, tail).

Definition startswith_sep (s : string) : bool :=
  match s with String c _ => is_sep c | EmptyString => false end.

Fixpoint endswith_sep (s : string) : bool :=
  match s with
  | EmptyString => false
  | String c EmptyString => is_sep c
  | String _ s' => endswith_sep s'
  end.

(** [posixpath.join(a, b)] for one extra component. *)
Definition join (a b : string) : string :=
  if startswith_sep b then b
  else if negb (nonempty a) || endswith_sep a then a +:+ b
  else a +:+ "/" +:+ b.

(** Names that may be used as one path component. *)
Fixpoint no_sep (s : string) : bool :=
  match s with
  | EmptyString => true
  | String c s' => negb (is_sep c) && no_sep s'
  end.

Definition component (s : string) : Prop := nonempty s = true /\ no_sep s = true.

(** The path of the entry [name] inside the folder whose path is [P]. *)
Definition child (P name : string) : string :=
  (if String.eqb P "/" then "" else P) +:+ "/" +:+ name.

End Path.

(** ** Text helpers of the store engine and of Python's [str] *)

Module Text.

(** ASCII lower-casing, the meaning of SQL [LOWER]: the engine folds
    the letters A to Z and leaves every other byte as it is.  Python's
    [str.lower] follows the Unicode tables and agrees with it on ASCII
    text only. *)
Definition lower_ascii (c : ascii) : ascii :=
  let n := nat_of_ascii c in
  if (65 <=? n)%nat && (n <=? 90)%nat then ascii_of_nat (n + 32) else c.

Fixpoint lower (s : string) : string :=
  match s with
  | EmptyString => EmptyString
  | String c s' => String (lower_ascii c) (lower s')
  end.

(** SQL [LIKE]: [%] matches any run of characters, [_] exactly one,
    anything else matches itself up to ASCII case. *)
Fixpoint like (pat s : string) : bool :=
  match pat with
  | EmptyString => negb (Path.nonempty s)
  | String p pat' =>
      if Ascii.eqb p "%"%char then
        (fix star (s : string) : bool :=
           like pat' s ||
           match s with
           | EmptyString => false
           | String _ s' => star s'
           end) s
      else
        match s with
        | EmptyString => false
        | String c s' =>
            (Ascii.eqb p "_"%char || Ascii.eqb (lower_ascii p) (lower_ascii c))
            && like pat' s'
        end
  end.

(** Stable sort used for every [ORDER BY]: an element is placed before
    the first element it is not greater than. *)
Fixpoint insert_by {A} (le : A -> A -> bool) (x : A) (l : list A) : list A :=
  match l with
  | [] => [x]
  | y :: l' => if le x y then x :: l else y :: insert_by le x l'
  end.

Definition order_by {A} (le : A -> A -> bool) (l : list A) : list A :=
  fold_right (insert_by le) [] l.

End Text.

(** ** The persistent store read by the statements *)

Record NodesRow := {
  n_id : string;
  n_type : string;
  n_name : string;          (* the root's NULL name is the empty string *)
  n_description : option string;
  n_created : string;
  n_modified : string;
  n_updated : string;
  n_status : string
}.

Record ParentageRow := { p_parent : string; p_child : string }.

Record FilesRow := {
  f_id : string;
  f_md5 : option string;
  f_size : option Z;
  f_version : option Z
}.

Record PropertiesRow := {
  pr_id : string;
  pr_owner : string;
  pr_key : string;
  pr_value : option string
}.

Record ContentRow := {
  c_id : string;
  c_value : option string;
  c_version : Z;
  c_accessed : option string
}.

(** The connection: the five relations and the user function bound to
    the SQL operator [REGEXP] (pattern first, subject second). *)
Record Store := {
  nodes : list NodesRow;
  parentage : list ParentageRow;
  files : list FilesRow;
  properties : list PropertiesRow;
  content : list ContentRow;
  regexp : string -> string -> bool
}.

(** The [f.*] columns of a result row; all NULL when the outer join finds
    no file row. *)
Record FileCols := {
  col_md5 : option string;
  col_size : option Z;
  col_version : option Z
}.

(** A result row of a node query: the [n.*] columns and, when the
    statement selects [f.*] too, the file columns. *)
Record Row := {
  r_n : NodesRow;
  r_f : option FileCols
}.

Definition null_cols : FileCols :=
  {| col_md5 := None; col_size := None; col_version := None |}.

Definition cols_of (f : FilesRow) : FileCols :=
  {| col_md5 := f_md5 f; col_size := f_size f; col_version := f_version f |}.

Module Sql.

(** [nodes n LEFT OUTER JOIN files f ON n.id = f.id], one node. *)
Definition left_join_files (st : Store) (n : NodesRow) : list Row :=
  match List.filter (fun f => String.eqb (n_id n) (f_id f)) (files st) with
  | [] => [ {| r_n := n; r_f := Some null_cols |} ]
  | fs => List.map (fun f => {| r_n := n; r_f := Some (cols_of f) |}) fs
  end.

(** [nodes n JOIN parentage p ON n.id = p.child], kept with the edge. *)
Definition join_child (st : Store) : list (NodesRow * ParentageRow) :=
  List.flat_map
    (fun n => List.map (fun p => (n, p))
                (List.filter (fun p => String.eqb (n_id n) (p_child p)) (parentage st)))
    (nodes st).

(** [nodes n JOIN parentage p ON n.id = p.parent]. *)
Definition join_parent (st : Store) : list (NodesRow * ParentageRow) :=
  List.flat_map
    (fun n => List.map (fun p => (n, p))
                (List.filter (fun p => String.eqb (n_id n) (p_parent p)) (parentage st)))
    (nodes st).

Definition with_files (st : Store) (l : list (NodesRow * ParentageRow)) : list Row :=
  List.flat_map (fun np => left_join_files st (fst np)) l.

Definition node_only (l : list (NodesRow * ParentageRow)) : list Row :=
  List.map (fun np => {| r_n := fst np; r_f := None |}) l.

(** [WHERE p.child = (?)] over the parent join. *)
Definition parent_edges (st : Store) (child : string) : list (NodesRow * ParentageRow) :=
  List.filter (fun np => String.eqb (p_child (snd np)) child) (join_parent st).

Definition all_with_files (st : Store) : list Row :=
  List.flat_map (left_join_files st) (nodes st).

Definition available (n : NodesRow) : bool := String.eqb (n_status n) "AVAILABLE".

(** The rows of [CHILD_OF_SQL] before its [ORDER BY]:
    [WHERE n.name = (?) AND p.parent = (?)] over the child join. *)
Definition child_of (st : Store) (name parent : string) : list Row :=
  with_files st
    (List.filter
       (fun np => String.eqb (n_name (fst np)) name
                  && String.eqb (p_parent (snd np)) parent)
       (join_child st)).

Definition by_name (a b : Row) : bool := String.leb (n_name (r_n a)) (n_name (r_n b)).
Definition by_status (a b : Row) : bool := String.leb (n_status (r_n a)) (n_status (r_n b)).
Definition by_status_id (a b : Row) : bool :=
  match String.compare (n_status (r_n a)) (n_status (r_n b)) with
  | Lt => true
  | Gt => false
  | Eq => String.leb (n_id (r_n a)) (n_id (r_n b))
  end.

Definition count {A} (l : list A) : Z := Z.of_nat (List.length l).

(** [SUM(size)]: NULL over no non-NULL value. *)
Definition sum_sizes (fs : list FilesRow) : option Z :=
  fold_left
    (fun acc f =>
       match f_size f, acc with
       | Some x, Some a => Some (a + x)%Z
       | Some x, None => Some x
       | None, _ => acc
       end) fs None.

Definition opt_eqb (a : option string) (b : string) : bool :=
  match a with Some x => String.eqb x b | None => false end.

Definition optZ_eqb (a : option Z) (b : Z) : bool :=
  match a with Some x => Z.eqb x b | None => false end.

End Sql.

(** The statements of the module, each with its bound parameters and
    indexed by what the cursor yields. *)
Inductive Statement : Type -> Type :=
| CONFLICTING_NODE_SQL (parent lname : string) : Statement (list Row)
| CHILDREN_SQL (parent : string) : Statement (list Row)
| PARENTS_SQL (child : string) : Statement (list Row)
| CHILDRENS_NAMES_SQL (parent : string) : Statement (list string)
| NUM_CHILDREN_SQL (parent : string) : Statement Z
| NUM_PARENTS_SQL (child : string) : Statement Z
| NUM_NODES_SQL : Statement Z
| NUM_FILES_SQL : Statement Z
| NUM_FOLDERS_SQL : Statement Z
| CHILD_OF_SQL (name parent : string) : Statement (list Row)
| NODE_BY_ID_SQL (id : string) : Statement (list Row)
| PROPERTY_BY_ID_SQL (id owner key : string) : Statement (list PropertiesRow)
| CONTENT_BY_ID_SQL (id : string) (version : Z) : Statement (list ContentRow)
| CONTENT_ACCESSED_SQL (accessed id : string) : Statement unit
| USAGE_SQL : Statement (option Z)
| FIND_BY_NAME_SQL (pattern : string) : Statement (list Row)
| FIND_BY_REGEX_SQL (pattern : string) : Statement (list Row)
| FIND_BY_MD5_SQL (md5 : string) : Statement (list Row)
| FIND_FIRST_PARENT_SQL (child : string) : Statement (list Row)
| FILE_SIZE_EXISTS_SQL (size : Z) : Statement Z.

(** What a statement does to the store and what its cursor yields.  Rows
    that tie under the [ORDER BY] key keep the order of the join. *)
Definition run {R} (s : Statement R) (st : Store) : Store * R :=
  match s in Statement R return Store * R with
  | CONFLICTING_NODE_SQL parent lname =>
      (st, Text.order_by Sql.by_name
             (Sql.with_files st
                (List.filter
                   (fun np => String.eqb (p_parent (snd np)) parent
                              && String.eqb (Text.lower (n_name (fst np))) lname
                              && Sql.available (fst np))
                   (Sql.join_child st))))
  | CHILDREN_SQL parent =>
      (st, Text.order_by Sql.by_name
             (Sql.with_files st
                (List.filter (fun np => String.eqb (p_parent (snd np)) parent)
                   (Sql.join_child st))))
  | PARENTS_SQL child =>
      (st, Text.order_by Sql.by_name (Sql.with_files st (Sql.parent_edges st child)))
  | CHILDRENS_NAMES_SQL parent =>
      (st, List.map (fun np => n_name (fst np))
             (Text.order_by (fun a b => String.leb (n_name (fst a)) (n_name (fst b)))
                (List.filter
                   (fun np => String.eqb (p_parent (snd np)) parent && Sql.available (fst np))
                   (Sql.join_child st))))
  | NUM_CHILDREN_SQL parent =>
      (st, Sql.count
             (List.filter
                (fun np => String.eqb (p_parent (snd np)) parent && Sql.available (fst np))
                (Sql.join_child st)))
  | NUM_PARENTS_SQL child =>
      (st, Sql.count
             (List.filter
                (fun np => String.eqb (p_child (snd np)) child && Sql.available (fst np))
                (Sql.join_parent st)))
  | NUM_NODES_SQL => (st, Sql.count (nodes st))
  | NUM_FILES_SQL => (st, Sql.count (files st))
  | NUM_FOLDERS_SQL =>
      (st, Sql.count (List.filter (fun n => String.eqb (n_type n) "folder") (nodes st)))
  | CHILD_OF_SQL name parent =>
      (st, Text.order_by Sql.by_status (Sql.child_of st name parent))
  | NODE_BY_ID_SQL id =>
      (st, List.flat_map (Sql.left_join_files st)
             (List.filter (fun n => String.eqb (n_id n) id) (nodes st)))
  | PROPERTY_BY_ID_SQL id owner key =>
      (st, List.filter
             (fun r => String.eqb (pr_id r) id && String.eqb (pr_owner r) owner
                       && String.eqb (pr_key r) key)
             (properties st))
  | CONTENT_BY_ID_SQL id version =>
      (st, List.filter
             (fun r => String.eqb (c_id r) id && Z.eqb (c_version r) version)
             (content st))
  | CONTENT_ACCESSED_SQL accessed id =>
      ({| nodes := nodes st; parentage := parentage st; files := files st;
          properties := properties st;
          content :=
            List.map
              (fun r => if String.eqb (c_id r) id
                        then {| c_id := c_id r; c_value := c_value r;
                                c_version := c_version r; c_accessed := Some accessed |}
                        else r)
              (content st);
          regexp := regexp st |}, tt)
  | USAGE_SQL => (st, Sql.sum_sizes (files st))
  | FIND_BY_NAME_SQL pattern =>
      (st, Text.order_by Sql.by_name
             (List.filter (fun r => Text.like pattern (n_name (r_n r)))
                (Sql.all_with_files st)))
  | FIND_BY_REGEX_SQL pattern =>
      (st, Text.order_by Sql.by_name
             (List.filter (fun r => regexp st pattern (n_name (r_n r)))
                (Sql.all_with_files st)))
  | FIND_BY_MD5_SQL md5 =>
      (st, Text.order_by Sql.by_name
             (List.filter
                (fun r => match r_f r with
                          | Some c => Sql.opt_eqb (col_md5 c) md5
                          | None => false
                          end)
                (Sql.all_with_files st)))
  | FIND_FIRST_PARENT_SQL child =>
      (st, Text.order_by Sql.by_status_id (Sql.node_only (Sql.parent_edges st child)))
  | FILE_SIZE_EXISTS_SQL size =>
      (st, Sql.count
             (List.flat_map
                (fun f =>
                   List.filter
                     (fun n => String.eqb (n_id n) (f_id f)
                               && Sql.optZ_eqb (f_size f) size && Sql.available n)
                     (nodes st))
                (files st)))
  end.

(** The rows a statement yields. *)
Definition rows {R} (s : Statement R) (st : Store) : R := snd (run s st).

(** A statement is a read when it is a [SELECT]. *)
Definition is_select {R} (s : Statement R) : bool :=
  match s with
  | CONTENT_ACCESSED_SQL _ _ => false
  | _ => true
  end.

(** ** The [Node] class *)

Record Node := {
  node_id : string;
  node_type : string;
  node_name : string;
  node_description : option string;
  node_cre : string;
  node_mod : string;
  node_updated : string;
  node_status : string;
  node_md5 : option string;
  node_size : option Z;
  node_version : option Z
}.

(** [Node.__init__]: a file column missing from the row (the statement
    selected [n.*] only) raises [IndexError] and leaves the default. *)
Definition Node_init (row : Row) : Node :=
  {| node_id := n_id (r_n row);
     node_type := n_type (r_n row);
     node_name := n_name (r_n row);
     node_description := n_description (r_n row);
     node_cre := n_created (r_n row);
     node_mod := n_modified (r_n row);
     node_updated := n_updated (r_n row);
     node_status := n_status (r_n row);
     node_md5 := match r_f row with Some c => col_md5 c | None => None end;
     node_size := match r_f row with Some c => col_size c | None => Some 0%Z end;
     node_version := match r_f row with Some c => col_version c | None => Some 0%Z end |}.

Definition is_folder (n : Node) : bool := String.eqb (node_type n) "folder".
Definition is_file (n : Node) : bool := String.eqb (node_type n) "file".
Definition is_available (n : Node) : bool := String.eqb (node_status n) "AVAILABLE".
Definition is_trashed (n : Node) : bool := String.eqb (node_status n) "TRASH".

Definition simple_name (n : Node) : string :=
  if is_file n then node_name n
  else (if Path.nonempty (node_name n) then node_name n else "") +:+ "/".

(** [Node.__lt__] *)
Definition node_lt (a b : Node) : bool := String.ltb (node_name a) (node_name b).

(** ** The object [self] and the effects of a method *)

Inductive Executed :=
| Exec : forall R : Type, Statement R -> Executed.
Arguments Exec {R} s.

Record Self := {
  conn : Store;
  root_id : string;
  node_id_to_node_cache : gmap string Node;
  path_to_node_id_cache : gmap string string;
  executed : list Executed          (* every statement sent to the store so far *)
}.

Inductive Exn := AttributeError | TypeError | KeyError.

Inductive outcome (A : Type) :=
| Return (a : A)
| Raise (e : Exn)
| OutOfFuel.
Arguments Return {A} a.
Arguments Raise {A} e.
Arguments OutOfFuel {A}.

Definition M (A : Type) : Type := Self -> outcome A * Self.

Definition ret {A} (a : A) : M A := fun self => (Return a, self).
Definition raise {A} (e : Exn) : M A := fun self => (Raise e, self).
Definition out_of_fuel {A} : M A := fun self => (OutOfFuel, self).

Definition bind {A B} (m : M A) (k : A -> M B) : M B :=
  fun self =>
    match m self with
    | (Return a, self') => k a self'
    | (Raise e, self') => (Raise e, self')
    | (OutOfFuel, self') => (OutOfFuel, self')
    end.

Notation "'let*' x ':=' m 'in' k" := (bind m (fun x => k))
  (at level 10, x name, m at level 100, k at level 200).

(** [try: body  except: pass] followed by [rest]; a [return] inside the
    body leaves the method. *)
Definition try_return {A} (body : M A) (rest : M A) : M A :=
  fun self =>
    match body self with
    | (Raise _, self') => rest self'
    | other => other
    end.

(** [c.execute(stmt, params)] and the rows the cursor then yields. *)
Definition execute {R} (s : Statement R) : M R :=
  fun self =>
    let (st, r) := run s (conn self) in
    (Return r,
     {| conn := st; root_id := root_id self;
        node_id_to_node_cache := node_id_to_node_cache self;
        path_to_node_id_cache := path_to_node_id_cache self;
        executed := executed self ++ [Exec s] |}).

(** [self.node_id_to_node_cache[id]] and [self.path_to_node_id_cache[path]] *)
Definition cached_node (id : string) : M Node :=
  fun self =>
    match node_id_to_node_cache self !! id with
    | Some n => (Return n, self)
    | None => (Raise KeyError, self)
    end.

Definition cached_path (path : string) : M string :=
  fun self =>
    match path_to_node_id_cache self !! path with
    | Some i => (Return i, self)
    | None => (Raise KeyError, self)
    end.

(** [self.node_id_to_node_cache[n.id] = n] *)
Definition cache_node (n : Node) : M unit :=
  fun self =>
    (Return tt,
     {| conn := conn self; root_id := root_id self;
        node_id_to_node_cache := <[node_id n := n]> (node_id_to_node_cache self);
        path_to_node_id_cache := path_to_node_id_cache self;
        executed := executed self |}).

(** [self.path_to_node_id_cache[path] = id] *)
Definition cache_path (path id : string) : M unit :=
  fun self =>
    (Return tt,
     {| conn := conn self; root_id := root_id self;
        node_id_to_node_cache := node_id_to_node_cache self;
        path_to_node_id_cache := <[path := id]> (path_to_node_id_cache self);
        executed := executed self |}).

Definition get_root_id : M string := fun self => (Return (root_id self), self).

(** Whether a further [fetchone()] yields a row. *)
Definition more_rows {A} (l : list A) : bool :=
  match l with [] => false | _ => true end.

(** A Python [for] loop with an accumulator. *)
Fixpoint for_each {A B} (l : list A) (acc : B) (body : A -> B -> M B) : M B :=
  match l with
  | [] => ret acc
  | x :: l' => let* acc' := body x acc in for_each l' acc' body
  end.

(** ** [QueryMixin] *)

Definition get_node (id : string) : M (option Node) :=
  try_return
    (let* n := cached_node id in ret (Some n))
    (let* r := execute (NODE_BY_ID_SQL id) in
     match r with
     | r :: _ =>
         let n := Node_init r in
         let* _ := (if is_available n then cache_node n else ret tt) in
         ret (Some n)
     | [] => ret None
     end).

Definition get_root_node : M (option Node) :=
  let* root := get_root_id in get_node root.

(** [name.lower()] is the lowering of the Python runtime, which follows
    the Unicode tables; it is not the engine's [LOWER] that the statement
    applies to the stored names.  The runtime's function is the argument
    [str_lower] of the method. *)
Definition get_conflicting_node (str_lower : string -> string) (name parent_id : string)
  : M (option Node) :=
  let* r := execute (CONFLICTING_NODE_SQL parent_id (str_lower name)) in
  match r with
  | r :: _ => ret (Some (Node_init r))
  | [] => ret None
  end.

(** [resolve]; each recursive call is on the head of [os.path.split],
    which is shorter than the path, so [fuel] above the path's length is
    never exhausted. *)
Fixpoint resolve_rec (fuel : nat) (path : string) (trash : bool) : M (option Node) :=
  match fuel with
  | O => out_of_fuel
  | S fuel' =>
      try_return
        (let* i := cached_path path in get_node i)
        (let (parent_path, name) := Path.split path in
         if negb (Path.nonempty name) then
           let* r := get_root_node in
           match r with
           | None => raise AttributeError      (* [r.id] on [None] *)
           | Some r =>
               let* _ := cache_node r in
               let* _ := cache_path path (node_id r) in
               ret (Some r)
           end
         else
           let* parent := resolve_rec fuel' parent_path trash in
           match parent with
           | None => ret None
           | Some parent =>
               let* rows := execute (CHILD_OF_SQL name (node_id parent)) in
               match rows with
               | [] => ret None
               | r :: r2 =>
                   let r := Node_init r in
                   if negb (is_available r) && negb trash then ret None
                   else if negb (is_available r) && more_rows r2 then ret None
                   else
                     let* _ := cache_node r in
                     let* _ := cache_path path (node_id r) in
                     ret (Some r)
               end
           end)
  end.

Definition resolve (path : string) (trash : bool) : M (option Node) :=
  resolve_rec (S (String.length path)) path trash.

Definition resolve_id (path : string) (trash : bool) : M (option string) :=
  let* n := resolve path trash in
  match n with
  | Some n => ret (Some (node_id n))
  | None => ret None
  end.

Definition childrens_names (folder_id : string) : M (list string) :=
  execute (CHILDRENS_NAMES_SQL folder_id).

Definition get_node_count : M Z := execute NUM_NODES_SQL.
Definition get_folder_count : M Z := execute NUM_FOLDERS_SQL.
Definition get_file_count : M Z := execute NUM_FILES_SQL.

Definition calculate_usage : M Z :=
  let* r := execute USAGE_SQL in
  match r with
  | Some x => ret (if Z.eqb x 0 then 0%Z else x)
  | None => ret 0%Z
  end.

Definition num_children (folder_id : string) : M Z := execute (NUM_CHILDREN_SQL folder_id).
Definition num_parents (node_id : string) : M Z := execute (NUM_PARENTS_SQL node_id).

Definition get_child (folder_id child_name : string) : M (option Node) :=
  let* r := execute (CHILD_OF_SQL child_name folder_id) in
  match r with
  | r :: _ =>
      let r := Node_init r in
      if is_available r then ret (Some r) else ret None
  | [] => ret None
  end.

Definition truthy (s : option string) : bool :=
  match s with Some s => Path.nonempty s | None => false end.

Definition list_children (folder_id : string) (trash : bool) (folder_path : option string)
  : M (list Node * list Node) :=
  let* rows := execute (CHILDREN_SQL folder_id) in
  let '(folders, files) :=
    fold_left
      (fun acc row =>
         let '(folders, files) := acc in
         let node := Node_init row in
         if is_available node || trash then
           if is_file node then (folders, files ++ [node])
           else if is_folder node then (folders ++ [node], files)
           else (folders, files)
         else (folders, files))
      rows ([], []) in
  let* _ := for_each (folders ++ files) tt
         (fun c _ =>
            let* _ := (if is_available c then cache_node c else ret tt) in
            match folder_path with
            | Some fp =>
                if Path.nonempty fp then cache_path (fp +:+ "/" +:+ node_name c) (node_id c)
                else ret tt
            | None => ret tt
            end) in
  ret (folders, files).

Definition list_trashed_children (folder_id : string) : M (list Node * list Node) :=
  let* ff := list_children folder_id true None in
  ret (List.filter is_trashed (fst ff), List.filter is_trashed (snd ff)).

Fixpoint first_path (fuel : nat) (id : string) : M string :=
  match fuel with
  | O => out_of_fuel
  | S fuel' =>
      let* root := get_root_id in
      if String.eqb id root then ret "/"
      else
        let* r := execute (FIND_FIRST_PARENT_SQL id) in
        match r with
        | [] => raise TypeError               (* [Node(None)] *)
        | r :: _ =>
            let node := Node_init r in
            if String.eqb (node_id node) root then ret (simple_name node)
            else
              let* p := first_path fuel' (node_id node) in
              ret (p +:+ node_name node +:+ "/")
        end
  end.

Fixpoint all_path (fuel : nat) (id : string) (path_suffix : option string) : M (list string) :=
  match fuel with
  | O => out_of_fuel
  | S fuel' =>
      let* root := get_root_id in
      if String.eqb id root then
        match path_suffix with
        | Some s => ret ["/" +:+ s]
        | None => raise TypeError             (* ["/" + None] *)
        end
      else
        let* n := get_node id in
        match n with
        | None => ret []
        | Some n =>
            let path_suffix :=
              if truthy path_suffix
              then Path.join (node_name n) (default "" path_suffix)
              else node_name n in
            let* parents := execute (PARENTS_SQL (node_id n)) in
            for_each parents []
              (fun parent acc =>
                 let parent := Node_init parent in
                 if is_available parent then
                   let* more := all_path fuel' (node_id parent) (Some path_suffix) in
                   ret (acc ++ more)
                 else ret acc)
        end
  end.

Definition find_by_name (name : string) : M (list Node) :=
  let* rows := execute (FIND_BY_NAME_SQL ("%" +:+ name +:+ "%")) in
  ret (List.map Node_init rows).

Definition find_by_md5 (md5 : string) : M (list Node) :=
  let* rows := execute (FIND_BY_MD5_SQL md5) in
  ret (List.map Node_init rows).

Definition find_by_regex (regex : string) : M (list Node) :=
  let* rows := execute (FIND_BY_REGEX_SQL regex) in
  ret (List.map Node_init rows).

Definition file_size_exists (size : Z) : M bool :=
  let* no := execute (FILE_SIZE_EXISTS_SQL size) in
  ret (negb (Z.eqb no 0)).

Definition get_property (node_id owner_id key : string) : M (option string) :=
  let* r := execute (PROPERTY_BY_ID_SQL node_id owner_id key) in
  match r with
  | r :: _ => ret (pr_value r)
  | [] => ret None
  end.

Definition get_content (node_id : string) (version : Z) : M (option string) :=
  if Z.eqb version 0 then ret None
  else
    let* r := execute (CONTENT_BY_ID_SQL node_id version) in
    match r with
    | r :: _ => ret (c_value r)
    | [] => ret None
    end.

(** ** The query surface as calls on [self] *)

Inductive Call :=
| Get_node (id : string)
| Get_root_node
| Get_conflicting_node (str_lower : string -> string) (name parent_id : string)
| Resolve_id (path : string) (trash : bool)
| Resolve (path : string) (trash : bool)
| Childrens_names (folder_id : string)
| Get_node_count
| Get_folder_count
| Get_file_count
| Calculate_usage
| Num_children (folder_id : string)
| Num_parents (node_id : string)
| Get_child (folder_id child_name : string)
| List_children (folder_id : string) (trash : bool) (folder_path : option string)
| List_trashed_children (folder_id : string)
| First_path (fuel : nat) (node_id : string)
| All_path (fuel : nat) (node_id : string) (path_suffix : option string)
| Find_by_name (name : string)
| Find_by_md5 (md5 : string)
| Find_by_regex (regex : string)
| File_size_exists (size : Z)
| Get_property (node_id owner_id key : string)
| Get_content (node_id : string) (version : Z).

(** Run a method for its effect on [self]. *)
Definition forget {A} (m : M A) : M unit := let* _ := m in ret tt.

Definition perform (c : Call) : M unit :=
  match c with
  | Get_node id => forget (get_node id)
  | Get_root_node => forget get_root_node
  | Get_conflicting_node str_lower name parent_id =>
      forget (get_conflicting_node str_lower name parent_id)
  | Resolve_id path trash => forget (resolve_id path trash)
  | Resolve path trash => forget (resolve path trash)
  | Childrens_names f => forget (childrens_names f)
  | Get_node_count => forget get_node_count
  | Get_folder_count => forget get_folder_count
  | Get_file_count => forget get_file_count
  | Calculate_usage => forget calculate_usage
  | Num_children f => forget (num_children f)
  | Num_parents n => forget (num_parents n)
  | Get_child f c => forget (get_child f c)
  | List_children f trash fp => forget (list_children f trash fp)
  | List_trashed_children f => forget (list_trashed_children f)
  | First_path fuel n => forget (first_path fuel n)
  | All_path fuel n sfx => forget (all_path fuel n sfx)
  | Find_by_name name => forget (find_by_name name)
  | Find_by_md5 md5 => forget (find_by_md5 md5)
  | Find_by_regex regex => forget (find_by_regex regex)
  | File_size_exists size => forget (file_size_exists size)
  | Get_property n o k => forget (get_property n o k)
  | Get_content n v => forget (get_content n v)
  end.

(** A freshly constructed cache object over a store. *)
Definition fresh (st : Store) (root : string) : Self :=
  {| conn := st; root_id := root;
     node_id_to_node_cache := ∅; path_to_node_id_cache := ∅;
     executed := [] |}.

(** The states reached from [s0] by calls that [allowed] admits. *)
Inductive reachable (allowed : Call -> bool) (s0 : Self) : Self -> Prop :=
| reach_start : reachable allowed s0 s0
| reach_call s c :
    reachable allowed s0 s -> allowed c = true ->
    reachable allowed s0 (snd (perform c s)).

Definition any_call (c : Call) : bool := true.

(** Calls other than a resolution in "include trash" mode. *)
Definition trash_free (c : Call) : bool :=
  match c with
  | Resolve _ true | Resolve_id _ true => false
  | _ => true
  end.

(** ** One step of a method on [self] *)

(** The three ways a method changes [self]: a statement is sent, a node
    is cached by id, a path is cached. *)
Definition logged {R} (q : Statement R) (s : Self) : Self := snd (execute q s).
Definition with_node (n : Node) (s : Self) : Self := snd (cache_node n s).
Definition with_path (p i : string) (s : Self) : Self := snd (cache_path p i s).

(** One step of [resolve]. *)
Definition resolve_step (rec : string -> bool -> M (option Node))
    (path : string) (trash : bool) (s : Self) : outcome (option Node) * Self :=
  match path_to_node_id_cache s !! path with
  | Some i => get_node i s
  | None =>
      if negb (Path.nonempty (snd (Path.split path))) then
        match get_node (root_id s) s with
        | (Return (Some r), s1) =>
            (Return (Some r), with_path path (node_id r) (with_node r s1))
        | (Return None, s1) => (Raise AttributeError, s1)
        | (Raise e, s1) => (Raise e, s1)
        | (OutOfFuel, s1) => (OutOfFuel, s1)
        end
      else
        match rec (fst (Path.split path)) trash s with
        | (Return (Some parent), s1) =>
            let q := CHILD_OF_SQL (snd (Path.split path)) (node_id parent) in
            match rows q (conn s1) with
            | [] => (Return None, logged q s1)
            | r :: r2 =>
                if negb (is_available (Node_init r)) && negb trash
                then (Return None, logged q s1)
                else if negb (is_available (Node_init r)) && more_rows r2
                then (Return None, logged q s1)
                else (Return (Some (Node_init r)),
                      with_path path (node_id (Node_init r))
                        (with_node (Node_init r) (logged q s1)))
            end
        | (Return None, s1) => (Return None, s1)
        | (Raise e, s1) => (Raise e, s1)
        | (OutOfFuel, s1) => (OutOfFuel, s1)
        end
  end.

(** ** Node objects and their identity *)

Module Identity.

(** A [Node] instance: the attributes [__init__] sets, at the address
    the object was allocated at. *)
Record object := { address : nat; attrs : Node }.

(** [Node(row)]: a new object at the next free address. *)
Definition construct (next : nat) (row : Row) : object * nat :=
  ({| address := next; attrs := Node_init row |}, S next).

(** The objects built from a list of rows, one after the other. *)
Fixpoint construct_all (next : nat) (l : list Row) : list object :=
  match l with
  | [] => []
  | row :: l' =>
      let (o, next') := construct next row in
      o :: construct_all next' l'
  end.

(** [a == b]: the class defines no [__eq__], so the comparison is that
    of [object], identity. *)
Definition equal (a b : object) : bool := Nat.eqb (address a) (address b).

(** [Node.__hash__]: [hash(self.id)], over the hash of strings. *)
Definition node_hash (str_hash : string -> Z) (a : object) : Z :=
  str_hash (node_id (attrs a)).

End Identity.

(** ** Specification vocabulary *)

Definition select_only (e : Executed) : Prop :=
  match e with Exec s => is_select s = true end.

(** A method is read-only when it leaves the connection and the root id
    as they were and sends only [SELECT] statements. *)
Definition read_only {A} (m : M A) : Prop :=
  forall s,
    conn (snd (m s)) = conn s /\
    root_id (snd (m s)) = root_id s /\
    exists t, executed (snd (m s)) = executed s ++ t /\ Forall select_only t.

(** Every node cached by id is available. *)
Definition ids_available (s : Self) : Prop :=
  forall i n, node_id_to_node_cache s !! i = Some n -> is_available n = true.

(** The root row, when the store has one, is available. *)
Definition root_available (s : Self) : Prop :=
  forall row rest,
    rows (NODE_BY_ID_SQL (root_id s)) (conn s) = row :: rest ->
    is_available (Node_init row) = true.

(** The invariant of the id cache over a fixed store and root. *)
Definition available_cache (st : Store) (root : string) (s : Self) : Prop :=
  conn s = st /\ root_id s = root /\ ids_available s.

(** A method keeps the invariant. *)
Definition keeps {A} (st : Store) (root : string) (m : M A) : Prop :=
  forall s, available_cache st root s -> available_cache st root (snd (m s)).

(** Primary keys: [nodes.id] and [files.id]. *)
Definition primary_keys (st : Store) : Prop :=
  List.NoDup (List.map n_id (nodes st)) /\ List.NoDup (List.map f_id (files st)).

(** Sortedness under a comparison, for the [ORDER BY] clauses. *)
Definition below {A} (le : A -> A -> bool) (x : A) (l : list A) : Prop :=
  forall y, In y l -> le x y = true.

Fixpoint sorted {A} (le : A -> A -> bool) (l : list A) : Prop :=
  match l with
  | [] => True
  | x :: l' => below le x l' /\ sorted le l'
  end.




(** The id cache agrees with the store. *)
Definition ids_coherent (s : Self) : Prop :=
  forall i n, node_id_to_node_cache s !! i = Some n ->
    exists row rest, rows (NODE_BY_ID_SQL i) (conn s) = row :: rest /\ n = Node_init row.


(** ** Paths by parents *)

(** [row] is the parent of [child] that sorts first by status, then id. *)
Definition first_parent (st : Store) (child : string) (row : Row) : Prop :=
  In row (Sql.node_only (Sql.parent_edges st child)) /\
  forall m, In m (Sql.node_only (Sql.parent_edges st child)) ->
            Sql.by_status_id row m = true.

(** [first_parents st root id names]: following first parents from [id]
    reaches the root, through the folders named [names] (listed from the
    root down, the root itself left out). *)
Inductive first_parents (st : Store) (root : string) : string -> list string -> Prop :=
| first_parents_root : first_parents st root root []
| first_parents_top id row :
    id <> root -> first_parent st id row ->
    n_id (r_n row) = root -> simple_name (Node_init row) = "/" ->
    first_parents st root id []
| first_parents_up id row names :
    id <> root -> first_parent st id row ->
    n_id (r_n row) <> root ->
    first_parents st root (n_id (r_n row)) names ->
    first_parents st root id (names ++ [n_name (r_n row)]).

(** The path of a folder from the names on the way down to it, with
    the trailing separator: "/" for no name, "/a/b/" for a then b. *)
Definition dir_path (names : list string) : string :=
  fold_left (fun acc name => acc +:+ name +:+ "/") names "/".

(** The available parents of a node, in the order [PARENTS_SQL] lists
    them (by name). *)
Definition available_parents (st : Store) (id : string) : list Node :=
  List.filter is_available (List.map Node_init (rows (PARENTS_SQL id) st)).

(** [sole_path st root id names]: the node [id] is reached from the root
    by exactly one path through available parents, whose components
    (from the root down to the node itself) are [names]. *)
Inductive sole_path (st : Store) (root : string) : string -> list string -> Prop :=
| sole_path_root : sole_path st root root []
| sole_path_step id row rest p names :
    id <> root ->
    rows (NODE_BY_ID_SQL id) st = row :: rest ->
    available_parents st id = [p] ->
    sole_path st root (node_id p) names ->
    sole_path st root id (names ++ [n_name (r_n row)]).

(** The full path with the given components, from the root down. *)
Definition full_path (names : list string) : string :=
  "/" +:+ String.concat "/" names.

(** The path that descends through [names] and ends in [suffix]. *)
Definition path_under (names : list string) (suffix : string) : string :=
  "/" +:+ fold_right (fun name acc => name +:+ "/" +:+ acc) suffix names.

(** ** Small stores used as concrete inputs *)

Module Sample.

Definition node (i t n st : string) : NodesRow :=
  {| n_id := i; n_type := t; n_name := n; n_description := None;
     n_created := "2015-06-01 12:00:00+00:00";
     n_modified := "2015-06-01 12:00:00+00:00";
     n_updated := "2015-06-01 12:00:00+00:00";
     n_status := st |}.

Definition edge (p c : string) : ParentageRow := {| p_parent := p; p_child := c |}.

Definition store (ns : list NodesRow) (ps : list ParentageRow) (fs : list FilesRow) : Store :=
  {| nodes := ns; parentage := ps; files := fs; properties := []; content := [];
     regexp := fun _ _ => false |}.

Definition file (i : string) (sz : Z) : FilesRow :=
  {| f_id := i; f_md5 := None; f_size := Some sz; f_version := Some 1%Z |}.

(** The row a node query yields for a folder or for a file. *)
Definition folder_row (n : NodesRow) : Row := {| r_n := n; r_f := Some null_cols |}.
Definition file_row (n : NodesRow) (f : FilesRow) : Row :=
  {| r_n := n; r_f := Some (cols_of f) |}.

Definition root := node "R" "folder" "" "AVAILABLE".
Definition a := node "A" "folder" "a" "AVAILABLE".
Definition b := node "B" "file" "b" "AVAILABLE".
Definition x := node "X" "file" "x" "TRASH".
Definition c := node "C" "folder" "c" "AVAILABLE".
Definition n := node "N" "file" "n" "AVAILABLE".

(** /a/b, and a trashed x in the root. *)
Definition tree : Store :=
  store [root; a; b; x] [edge "R" "A"; edge "A" "B"; edge "R" "X"]
        [file "B" 3; file "X" 5].


(** The file n inside both folder a and folder c. *)
Definition shared : Store :=
  store [root; a; c; n] [edge "R" "A"; edge "R" "C"; edge "A" "N"; edge "C" "N"]
        [file "N" 1].

(** A store before the first synchronisation: no node at all. *)
Definition empty : Store := store [] [] [].



End Sample.

(** ** Listings *)

(** The children of a folder as [CHILDREN_SQL] lists them. *)
Definition child_nodes (st : Store) (folder_id : string) : list Node :=
  List.map Node_init (rows (CHILDREN_SQL folder_id) st).

(** What [list_children] does to the caches for one listed node. *)
Definition primed_with (folder_path : option string) (s : Self) (c : Node) : Self :=
  let s1 := if is_available c then with_node c s else s in
  if truthy folder_path
  then with_path (default "" folder_path +:+ "/" +:+ node_name c) (node_id c) s1
  else s1.

Definition primed (folder_path : option string) (l : list Node) (s : Self) : Self :=
  fold_left (primed_with folder_path) l s.

(** ** Cache growth *)

(** [s'] has every key that the caches of [s] have. *)
Definition retains (s s' : Self) : Prop :=
  dom (node_id_to_node_cache s) ⊆ dom (node_id_to_node_cache s') /\
  dom (path_to_node_id_cache s) ⊆ dom (path_to_node_id_cache s').

(** A method only adds to the caches. *)
Definition grows {A} (m : M A) : Prop := forall s, retains s (snd (m s)).

(** * Properties *)

(** ** The path and text helpers on examples *)

Example split_top : Path.split "/a" = ("/", "a").
Proof. reflexivity. Qed.
Example split_deep : Path.split "/a/b" = ("/a", "b").
Proof. reflexivity. Qed.
Example split_trailing : Path.split "/a/b/" = ("/a/b", "").
Proof. reflexivity. Qed.
Example split_doubled : Path.split "/a//b" = ("/a", "b").
Proof. reflexivity. Qed.
Example split_relative : Path.split "a" = ("", "a").
Proof. reflexivity. Qed.
Example split_empty : Path.split "" = ("", "").
Proof. reflexivity. Qed.
Example join_plain : Path.join "a" "b/c" = "a/b/c".
Proof. reflexivity. Qed.
Example join_absolute : Path.join "a" "/b" = "/b".
Proof. reflexivity. Qed.
Example join_empty_head : Path.join "" "b" = "b".
Proof. reflexivity. Qed.
Example lower_mixed : Text.lower "Foo.TXT" = "foo.txt".
Proof. reflexivity. Qed.
Example like_infix : Text.like "%oo%" "FOOD" = true.
Proof. reflexivity. Qed.
Example like_miss : Text.like "%ox%" "FOOD" = false.
Proof. reflexivity. Qed.
Example order_by_stable :
  Text.order_by (fun a b => Nat.leb (fst a) (fst b)) [(2, "x"); (1, "a"); (2, "y"); (1, "b")]
  = [(1, "a"); (1, "b"); (2, "x"); (2, "y")].
Proof. reflexivity. Qed.

(** ** Read-only methods *)

Lemma run_select {R} (q : Statement R) (st : Store) :
  is_select q = true -> fst (run q st) = st.
Proof. destruct q; simpl; intros H; try reflexivity; discriminate H. Qed.

Lemma read_only_ret {A} (a : A) : read_only (ret a).
Proof.
  intros s. simpl. repeat split. exists []. rewrite app_nil_r. auto.
Qed.

Lemma read_only_raise {A} (e : Exn) : read_only (@raise A e).
Proof.
  intros s. simpl. repeat split. exists []. rewrite app_nil_r. auto.
Qed.

Lemma read_only_out_of_fuel {A} : read_only (@out_of_fuel A).
Proof.
  intros s. simpl. repeat split. exists []. rewrite app_nil_r. auto.
Qed.

Lemma read_only_get_root_id : read_only get_root_id.
Proof.
  intros s. simpl. repeat split. exists []. rewrite app_nil_r. auto.
Qed.

Lemma read_only_cached_node id : read_only (cached_node id).
Proof.
  intros s. unfold cached_node.
  destruct (node_id_to_node_cache s !! id); simpl; repeat split;
    exists []; rewrite app_nil_r; auto.
Qed.

Lemma read_only_cached_path path : read_only (cached_path path).
Proof.
  intros s. unfold cached_path.
  destruct (path_to_node_id_cache s !! path); simpl; repeat split;
    exists []; rewrite app_nil_r; auto.
Qed.

Lemma read_only_cache_node n : read_only (cache_node n).
Proof.
  intros s. simpl. repeat split. exists []. rewrite app_nil_r. auto.
Qed.

Lemma read_only_cache_path path id : read_only (cache_path path id).
Proof.
  intros s. simpl. repeat split. exists []. rewrite app_nil_r. auto.
Qed.

Lemma read_only_execute {R} (q : Statement R) :
  is_select q = true -> read_only (execute q).
Proof.
  intros Hq s. unfold execute.
  pose proof (run_select q (conn s) Hq) as Hst.
  destruct (run q (conn s)) as [st r]. simpl in *. subst st.
  repeat split. exists [Exec q]. split; [reflexivity|].
  constructor; [exact Hq | constructor].
Qed.

Lemma read_only_bind {A B} (m : M A) (k : A -> M B) :
  read_only m -> (forall a, read_only (k a)) -> read_only (bind m k).
Proof.
  intros Hm Hk s. unfold bind.
  destruct (Hm s) as (Hc & Hr & t & Ht & Hsel).
  destruct (m s) as [[a | e |] s1]; simpl in *.
  - destruct (Hk a s1) as (Hc' & Hr' & t' & Ht' & Hsel').
    split; [congruence|]. split; [congruence|].
    exists (t ++ t'). split.
    + rewrite Ht', Ht, app_assoc. reflexivity.
    + apply Forall_app. auto.
  - eauto 6.
  - eauto 6.
Qed.

Lemma read_only_try_return {A} (body rest : M A) :
  read_only body -> read_only rest -> read_only (try_return body rest).
Proof.
  intros Hb Hr s. unfold try_return.
  destruct (Hb s) as (Hc & Hroot & t & Ht & Hsel).
  destruct (body s) as [[a | e |] s1]; simpl in *; eauto 6.
  destruct (Hr s1) as (Hc' & Hroot' & t' & Ht' & Hsel').
  split; [congruence|]. split; [congruence|].
  exists (t ++ t'). split.
  - rewrite Ht', Ht, app_assoc. reflexivity.
  - apply Forall_app. auto.
Qed.

Lemma read_only_for_each {A B} (l : list A) (body : A -> B -> M B) :
  (forall x acc, read_only (body x acc)) ->
  forall acc, read_only (for_each l acc body).
Proof.
  intros Hbody. induction l as [|x l IH]; intros acc; simpl.
  - apply read_only_ret.
  - apply read_only_bind; auto.
Qed.

Ltac read_only_step :=
  first
    [ assumption
    | apply read_only_ret
    | apply read_only_raise
    | apply read_only_out_of_fuel
    | apply read_only_get_root_id
    | apply read_only_cached_node
    | apply read_only_cached_path
    | apply read_only_cache_node
    | apply read_only_cache_path
    | apply read_only_execute; reflexivity
    | apply read_only_try_return
    | apply read_only_bind; [ | intros ? ]
    | apply read_only_for_each; intros ? ?
    | match goal with
      | |- read_only (match ?x with _ => _ end) => destruct x
      end ].

Ltac read_only_tac := repeat read_only_step.

Lemma read_only_get_node id : read_only (get_node id).
Proof. unfold get_node. read_only_tac. Qed.

Lemma read_only_get_root_node : read_only get_root_node.
Proof. unfold get_root_node. read_only_tac. Qed.

Lemma read_only_resolve_rec fuel :
  forall path trash, read_only (resolve_rec fuel path trash).
Proof.
  induction fuel as [|fuel IH]; intros path trash; simpl.
  - apply read_only_out_of_fuel.
  - pose proof read_only_get_node. pose proof read_only_get_root_node.
    read_only_tac; auto.
Qed.

Lemma read_only_list_children f trash fp : read_only (list_children f trash fp).
Proof. unfold list_children. read_only_tac. Qed.

Lemma read_only_first_path fuel : forall id, read_only (first_path fuel id).
Proof.
  induction fuel as [|fuel IH]; intros id; simpl; read_only_tac; auto.
Qed.

Lemma read_only_all_path fuel : forall id sfx, read_only (all_path fuel id sfx).
Proof.
  induction fuel as [|fuel IH]; intros id sfx; simpl.
  - apply read_only_out_of_fuel.
  - pose proof read_only_get_node. read_only_tac; auto.
Qed.

Lemma read_only_perform c : read_only (perform c).
Proof.
  destruct c; unfold perform, forget;
    (apply read_only_bind; [ | intros; apply read_only_ret ]);
    unfold get_root_node, get_conflicting_node, resolve_id, resolve,
      childrens_names, get_node_count, get_folder_count, get_file_count,
      calculate_usage, num_children, num_parents, get_child,
      list_trashed_children, find_by_name, find_by_md5, find_by_regex,
      file_size_exists, get_property, get_content;
    first
      [ apply read_only_get_node
      | apply read_only_resolve_rec
      | apply read_only_list_children
      | apply read_only_first_path
      | apply read_only_all_path
      | apply read_only_bind;
        [ first [ apply read_only_resolve_rec | apply read_only_list_children ]
        | intros; read_only_tac ]
      | read_only_tac ].
Qed.

(** C9. Every operation of the query mixin leaves the store as it was:
    after any call the connection holds the same nodes, parentage, files,
    properties and content relations, and every statement the call sent
    is a SELECT (none is the UPDATE of [CONTENT_ACCESSED_SQL]). *)
Theorem query_surface_read_only :
  forall (c : Call) (s : Self),
    conn (snd (perform c s)) = conn s /\
    exists t, executed (snd (perform c s)) = executed s ++ t /\ Forall select_only t.
Proof.
  intros c s. destruct (read_only_perform c s) as (Hc & _ & Ht). auto.
Qed.

(** ** [all_path] at the root *)

Lemma all_path_root_suffix fuel s sfx :
  all_path (S fuel) (root_id s) sfx s =
  match sfx with
  | Some x => (Return ["/" +:+ x], s)
  | None => (Raise TypeError, s)
  end.
Proof.
  simpl. unfold bind, get_root_id. simpl.
  rewrite String.eqb_refl. destruct sfx; reflexivity.
Qed.

(** C10. [all_path] of the root with no path suffix does not return
    ["/"]: it raises (the concatenation of "/" with the absent suffix),
    leaving [self] as it was; so whenever [all_path] without a suffix
    returns a list, its argument is not the root id. *)
Theorem all_path_root_without_suffix_raises :
  forall (fuel : nat) (s : Self),
    all_path (S fuel) (root_id s) None s = (Raise TypeError, s) /\
    forall id,
      match fst (all_path (S fuel) id None s) with
      | Return _ => id <> root_id s
      | _ => True
      end.
Proof.
  intros fuel s. split.
  - apply all_path_root_suffix.
  - intros id. destruct (String.eqb_spec id (root_id s)) as [-> | Hne].
    + rewrite all_path_root_suffix. exact I.
    + destruct (fst (all_path (S fuel) id None s)); auto.
Qed.

(** ** Facts about [os.path.split] *)

Section PathFacts.

Import Path.










Lemma substring_none i p : substring i 0 p = "".
Proof.
  revert i. induction p as [|c p IH]; intros [|i]; simpl; auto.
Qed.

Lemma substring_length_le i p : String.length (substring 0 i p) <= i.
Proof.
  revert p. induction i as [|i IH]; intros [|c p]; simpl; try lia.
  specialize (IH p). lia.
Qed.

Lemma rstrip_length_le p : String.length (rstrip p) <= String.length p.
Proof.
  induction p as [|c p IH]; simpl; [lia|].
  destruct (rstrip p) eqn:E; simpl in *.
  - destruct (is_sep c); simpl; lia.
  - lia.
Qed.








Lemma endswith_no_sep name :
  nonempty name = true -> no_sep name = true -> endswith_sep name = false.
Proof.
  induction name as [|c name IH]; simpl; [discriminate|].
  intros _ H. apply andb_prop in H as [Hc Hn]. apply negb_true_iff in Hc.
  destruct name; [exact Hc|]. apply IH; auto.
Qed.




Lemma split_head_shorter p :
  nonempty (snd (split p)) = true ->
  String.length (fst (split p)) < String.length p.
Proof.
  unfold split, slice_to, slice_from. simpl.
  set (i := rfind_succ p). intros Ht.
  assert (Hi : i < String.length p).
  { destruct (Nat.lt_ge_cases i (String.length p)) as [H | H]; [exact H|].
    replace (String.length p - i) with 0 in Ht by lia.
    rewrite substring_none in Ht. discriminate Ht. }
  pose proof (substring_length_le i p) as Hs.
  pose proof (rstrip_length_le (substring 0 i p)) as Hr.
  destruct (nonempty (substring 0 i p) && negb (all_sep (substring 0 i p))); lia.
Qed.

End PathFacts.

(** ** Unfolding the cache and resolution methods *)

Arguments rows : simpl never.
Arguments run : simpl never.
Arguments Path.split : simpl never.
Arguments Path.child : simpl never.

Lemma run_rows {R} (q : Statement R) (st : Store) :
  is_select q = true -> run q st = (st, rows q st).
Proof.
  intros H. unfold rows. pose proof (run_select q st H) as E.
  destruct (run q st) as [st' r]. simpl in *. subst. reflexivity.
Qed.

Lemma execute_select {R} (q : Statement R) (s : Self) :
  is_select q = true -> execute q s = (Return (rows q (conn s)), logged q s).
Proof.
  intros H. unfold logged, execute. rewrite (run_rows q _ H). reflexivity.
Qed.

Lemma conn_logged {R} (q : Statement R) s :
  is_select q = true -> conn (logged q s) = conn s.
Proof. intros H. unfold logged, execute. rewrite (run_rows q _ H). reflexivity. Qed.

Lemma root_logged {R} (q : Statement R) s : root_id (logged q s) = root_id s.
Proof. unfold logged, execute. destruct (run q (conn s)). reflexivity. Qed.

Lemma ids_logged {R} (q : Statement R) s :
  node_id_to_node_cache (logged q s) = node_id_to_node_cache s.
Proof. unfold logged, execute. destruct (run q (conn s)). reflexivity. Qed.

Lemma paths_logged {R} (q : Statement R) s :
  path_to_node_id_cache (logged q s) = path_to_node_id_cache s.
Proof. unfold logged, execute. destruct (run q (conn s)). reflexivity. Qed.

Lemma executed_logged {R} (q : Statement R) s :
  executed (logged q s) = executed s ++ [Exec q].
Proof. unfold logged, execute. destruct (run q (conn s)). reflexivity. Qed.

Lemma get_node_eq i s :
  get_node i s =
  match node_id_to_node_cache s !! i with
  | Some n => (Return (Some n), s)
  | None =>
      match rows (NODE_BY_ID_SQL i) (conn s) with
      | r :: _ =>
          (Return (Some (Node_init r)),
           if is_available (Node_init r)
           then with_node (Node_init r) (logged (NODE_BY_ID_SQL i) s)
           else logged (NODE_BY_ID_SQL i) s)
      | [] => (Return None, logged (NODE_BY_ID_SQL i) s)
      end
  end.
Proof.
  unfold get_node, try_return, bind, cached_node.
  destruct (node_id_to_node_cache s !! i); [reflexivity|].
  rewrite execute_select by reflexivity.
  destruct (rows (NODE_BY_ID_SQL i) (conn s)) as [|r rest]; [reflexivity|].
  destruct (is_available (Node_init r)); reflexivity.
Qed.

Lemma get_node_returns i s : exists o, fst (get_node i s) = Return o.
Proof.
  rewrite get_node_eq.
  destruct (node_id_to_node_cache s !! i); [eauto|].
  destruct (rows (NODE_BY_ID_SQL i) (conn s)); eauto.
Qed.

Lemma resolve_rec_eq fuel path trash s :
  resolve_rec (S fuel) path trash s = resolve_step (resolve_rec fuel) path trash s.
Proof.
  cbn [resolve_rec]. unfold resolve_step, try_return.
  unfold bind at 1. unfold cached_path.
  destruct (path_to_node_id_cache s !! path) as [i|].
  - destruct (get_node_returns i s) as [o Ho].
    destruct (get_node i s) as [[o'|e|] s1]; simpl in Ho; try discriminate Ho.
    reflexivity.
  - destruct (Path.split path) as [parent_path name]. cbn [fst snd].
    destruct (negb (Path.nonempty name)).
    + cbv beta iota zeta delta [bind get_root_node get_root_id].
      destruct (get_node (root_id s) s) as [[[r|]|e|] s1]; reflexivity.
    + cbv beta iota zeta delta [bind].
      destruct (resolve_rec fuel parent_path trash s) as [[[parent|]|e|] s1];
        try reflexivity.
      rewrite execute_select by reflexivity.
      destruct (rows (CHILD_OF_SQL name (node_id parent)) (conn s1)) as [|r r2];
        [reflexivity|].
      destruct (negb (is_available (Node_init r)) && negb trash); [reflexivity|].
      destruct (negb (is_available (Node_init r)) && more_rows r2); reflexivity.
Qed.

Lemma resolve_rec_fuel f1 :
  forall f2 path trash s,
    String.length path < f1 -> String.length path < f2 ->
    resolve_rec f1 path trash s = resolve_rec f2 path trash s.
Proof.
  induction f1 as [|f1 IH]; intros f2 path trash s H1 H2; [lia|].
  destruct f2 as [|f2]; [lia|].
  rewrite !resolve_rec_eq. unfold resolve_step.
  destruct (path_to_node_id_cache s !! path); [reflexivity|].
  destruct (Path.nonempty (snd (Path.split path))) eqn:E; cbn [negb]; [|reflexivity].
  pose proof (split_head_shorter path E) as Hlt.
  rewrite (IH f2) by lia. reflexivity.
Qed.

Lemma resolve_eq path trash s :
  resolve path trash s = resolve_step resolve path trash s.
Proof.
  unfold resolve at 1. rewrite resolve_rec_eq. unfold resolve_step.
  destruct (path_to_node_id_cache s !! path); [reflexivity|].
  destruct (Path.nonempty (snd (Path.split path))) eqn:E; cbn [negb]; [|reflexivity].
  pose proof (split_head_shorter path E) as Hlt.
  unfold resolve.
  rewrite (resolve_rec_fuel _ (S (String.length (fst (Path.split path))))) by lia.
  reflexivity.
Qed.

(** [resolve] always finishes: it returns, or raises on the absent root. *)
Lemma resolve_total path trash s :
  (exists o, fst (resolve path trash s) = Return o) \/
  fst (resolve path trash s) = Raise AttributeError.
Proof.
  remember (String.length path) as k eqn:Hk.
  revert path Hk s. induction k as [k IH] using lt_wf_ind. intros path Hk s.
  rewrite resolve_eq. unfold resolve_step.
  destruct (path_to_node_id_cache s !! path) as [i|].
  - left. apply get_node_returns.
  - destruct (Path.nonempty (snd (Path.split path))) eqn:E; cbn [negb].
    + pose proof (split_head_shorter path E) as Hlt.
      specialize (IH (String.length (fst (Path.split path))) ltac:(lia)
                    (fst (Path.split path)) eq_refl s).
      destruct (resolve (fst (Path.split path)) trash s) as [[[parent|]|e|] s1];
        cbn [fst] in IH.
      * left.
        destruct (rows (CHILD_OF_SQL (snd (Path.split path)) (node_id parent)) (conn s1));
          [eauto|].
        destruct (negb (is_available (Node_init r)) && negb trash); [eauto|].
        destruct (negb (is_available (Node_init r)) && more_rows l); eauto.
      * left. eauto.
      * destruct IH as [[o Ho] | Ho]; [discriminate Ho | right; exact Ho].
      * destruct IH as [[o Ho] | Ho]; discriminate Ho.
    + destruct (get_node_returns (root_id s) s) as [o Ho].
      destruct (get_node (root_id s) s) as [[[r|]|e|] s1]; cbn [fst] in Ho;
        try discriminate Ho; cbn [fst]; eauto.
Qed.

(** ** Facts about the statements *)

Section StoreFacts.

Lemma compare_refl (a : string) : String.compare a a = Eq.
Proof.
  pose proof (String.compare_antisym a a) as H.
  destruct (String.compare a a); simpl in H; congruence.
Qed.





Lemma in_insert_by {A} (le : A -> A -> bool) x y l :
  In y (Text.insert_by le x l) <-> y = x \/ In y l.
Proof.
  induction l as [|z l IH]; simpl.
  - intuition.
  - destruct (le x z); simpl; rewrite ?IH; intuition.
Qed.

Lemma in_order_by {A} (le : A -> A -> bool) y l :
  In y (Text.order_by le l) <-> In y l.
Proof.
  induction l as [|x l IH]; simpl; [reflexivity|].
  rewrite in_insert_by, IH. intuition.
Qed.

Lemma length_insert_by {A} (le : A -> A -> bool) x l :
  List.length (Text.insert_by le x l) = S (List.length l).
Proof.
  induction l as [|z l IH]; simpl; [reflexivity|].
  destruct (le x z); simpl; [reflexivity | rewrite IH; reflexivity].
Qed.

Lemma length_order_by {A} (le : A -> A -> bool) l :
  List.length (Text.order_by le l) = List.length l.
Proof.
  induction l as [|x l IH]; simpl; [reflexivity|].
  rewrite length_insert_by, IH. reflexivity.
Qed.


Lemma rows_node_by_id i st :
  rows (NODE_BY_ID_SQL i) st =
  List.flat_map (Sql.left_join_files st)
    (List.filter (fun n => String.eqb (n_id n) i) (nodes st)).
Proof. reflexivity. Qed.

Lemma rows_child_of name parent st :
  rows (CHILD_OF_SQL name parent) st =
  Text.order_by Sql.by_status (Sql.child_of st name parent).
Proof. reflexivity. Qed.

Lemma in_left_join st n row : In row (Sql.left_join_files st n) -> r_n row = n.
Proof.
  unfold Sql.left_join_files.
  destruct (List.filter _ (files st)) as [|f fs].
  - intros [<- | []]. reflexivity.
  - intros H. apply in_map_iff in H as (f' & <- & _). reflexivity.
Qed.

Lemma node_by_id_id i st row :
  In row (rows (NODE_BY_ID_SQL i) st) -> n_id (r_n row) = i.
Proof.
  rewrite rows_node_by_id. intros H.
  apply in_flat_map in H as (n & Hn & Hrow).
  apply filter_In in Hn as [_ Hn]. apply String.eqb_eq in Hn.
  rewrite (in_left_join _ _ _ Hrow). exact Hn.
Qed.



Lemma filter_key_short {A} (f : A -> string) (l : list A) (k : string) :
  List.NoDup (List.map f l) ->
  List.length (List.filter (fun y => String.eqb k (f y)) l) <= 1.
Proof.
  induction l as [|y l IH]; intros Hnd; simpl; [lia|].
  simpl in Hnd. apply NoDup_cons_iff in Hnd as [Hy Hnd].
  destruct (String.eqb_spec k (f y)) as [-> | _]; [|auto].
  simpl. replace (List.filter _ l) with (@nil A); [simpl; lia|].
  symmetry. clear IH Hnd. induction l as [|z l IHl]; [reflexivity|]. simpl.
  destruct (String.eqb_spec (f y) (f z)) as [E | _].
  - exfalso. apply Hy. simpl. left. symmetry. exact E.
  - apply IHl. intros H. apply Hy. simpl. right. exact H.
Qed.

Lemma left_join_single st n row :
  List.NoDup (List.map f_id (files st)) ->
  In row (Sql.left_join_files st n) -> Sql.left_join_files st n = [row].
Proof.
  intros Hnd. unfold Sql.left_join_files.
  pose proof (filter_key_short f_id (files st) (n_id n) Hnd) as Hlen.
  destruct (List.filter _ (files st)) as [|f [|g fs]]; simpl in *.
  - intros [<- | []]. reflexivity.
  - intros [<- | []]. reflexivity.
  - lia.
Qed.



End StoreFacts.

(** ** Located paths and coherent caches *)

Lemma conn_with_node n s : conn (with_node n s) = conn s.
Proof. reflexivity. Qed.
Lemma conn_with_path p i s : conn (with_path p i s) = conn s.
Proof. reflexivity. Qed.
Lemma root_with_node n s : root_id (with_node n s) = root_id s.
Proof. reflexivity. Qed.
Lemma root_with_path p i s : root_id (with_path p i s) = root_id s.
Proof. reflexivity. Qed.
Lemma ids_with_node n s :
  node_id_to_node_cache (with_node n s) = <[node_id n := n]> (node_id_to_node_cache s).
Proof. reflexivity. Qed.
Lemma ids_with_path p i s :
  node_id_to_node_cache (with_path p i s) = node_id_to_node_cache s.
Proof. reflexivity. Qed.
Lemma paths_with_node n s :
  path_to_node_id_cache (with_node n s) = path_to_node_id_cache s.
Proof. reflexivity. Qed.
Lemma paths_with_path p i s :
  path_to_node_id_cache (with_path p i s) = <[p := i]> (path_to_node_id_cache s).
Proof. reflexivity. Qed.
Lemma executed_with_node n s : executed (with_node n s) = executed s.
Proof. reflexivity. Qed.
Lemma executed_with_path p i s : executed (with_path p i s) = executed s.
Proof. reflexivity. Qed.

Create Rewrite HintDb self.
#[local] Hint Rewrite conn_with_node conn_with_path root_with_node root_with_path
  ids_with_node ids_with_path paths_with_node paths_with_path
  executed_with_node executed_with_path
  @root_logged @ids_logged @paths_logged @executed_logged : self.
#[local] Hint Rewrite @conn_logged using reflexivity : self.




Lemma available_status row :
  is_available (Node_init row) = true -> n_status (r_n row) = "AVAILABLE".
Proof. unfold is_available. simpl. apply String.eqb_eq. Qed.











(** ** Resolution of available and of trashed entries *)


Lemma resolve_cached s P trash n :
  path_to_node_id_cache s !! P = Some (node_id n) ->
  node_id_to_node_cache s !! node_id n = Some n ->
  resolve P trash s = (Return (Some n), s).
Proof.
  intros Hp Hi. rewrite resolve_eq. unfold resolve_step.
  rewrite Hp, get_node_eq, Hi. reflexivity.
Qed.


Lemma tree_keys : primary_keys Sample.tree.
Proof.
  split; simpl; repeat (constructor; [simpl; intuition discriminate|]); constructor.
Defined.

















(** ** Absence and the missing root *)

(** The point lookups signal a missing item by returning [None]. *)
Lemma point_lookups_return :
  forall s,
    (forall id, exists o, fst (get_node id s) = Return o) /\
    (forall f c, exists o, fst (get_child f c s) = Return o) /\
    (forall low name p, exists o, fst (get_conflicting_node low name p s) = Return o) /\
    (forall n o k, exists r, fst (get_property n o k s) = Return r) /\
    (forall n v, exists r, fst (get_content n v s) = Return r).
Proof.
  intros s. split_and!.
  - intros id. apply get_node_returns.
  - intros f c. unfold get_child, bind. rewrite execute_select by reflexivity.
    destruct (rows (CHILD_OF_SQL c f) (conn s)) as [|r l]; [simpl; eauto|].
    destruct (is_available (Node_init r)); simpl; eauto.
  - intros low name p. unfold get_conflicting_node, bind.
    rewrite execute_select by reflexivity.
    destruct (rows (CONFLICTING_NODE_SQL p (low name)) (conn s));
      simpl; eauto.
  - intros n o k. unfold get_property, bind. rewrite execute_select by reflexivity.
    destruct (rows (PROPERTY_BY_ID_SQL n o k) (conn s)); simpl; eauto.
  - intros n v. unfold get_content. destruct (Z.eqb v 0); [simpl; eauto|].
    unfold bind. rewrite execute_select by reflexivity.
    destruct (rows (CONTENT_BY_ID_SQL n v) (conn s)); simpl; eauto.
Qed.

Lemma resolve_without_root s :
  node_id_to_node_cache s = ∅ -> path_to_node_id_cache s = ∅ ->
  rows (NODE_BY_ID_SQL (root_id s)) (conn s) = [] ->
  forall path trash, fst (resolve path trash s) = Raise AttributeError.
Proof.
  intros Hi Hp Hroot path trash.
  remember (String.length path) as k eqn:Hk.
  revert path Hk. induction k as [k IH] using lt_wf_ind. intros path Hk.
  rewrite resolve_eq. unfold resolve_step. rewrite Hp, lookup_empty.
  destruct (Path.nonempty (snd (Path.split path))) eqn:E; cbn [negb].
  - pose proof (split_head_shorter path E) as Hlt.
    specialize (IH (String.length (fst (Path.split path))) ltac:(lia)
                  (fst (Path.split path)) eq_refl).
    destruct (resolve (fst (Path.split path)) trash s) as [[[parent|]|e|] s1];
      cbn [fst] in IH; try discriminate IH. exact IH.
  - rewrite get_node_eq, Hi, lookup_empty, Hroot. reflexivity.
Qed.

(** C7 (the failing input). On a store that holds no root row and a cold
    cache, [resolve] and [resolve_id] do not return absent: for every
    path they raise, from the attribute access on the absent root. *)
Theorem resolve_raises_when_root_is_absent :
  forall (path root : string) (trash : bool),
    fst (resolve path trash (fresh Sample.empty root)) = Raise AttributeError /\
    fst (resolve_id path trash (fresh Sample.empty root)) = Raise AttributeError.
Proof.
  intros path root trash.
  assert (H : fst (resolve path trash (fresh Sample.empty root)) = Raise AttributeError)
    by (apply resolve_without_root; reflexivity).
  split; [exact H|]. unfold resolve_id, bind.
  destruct (resolve path trash (fresh Sample.empty root)) as [[[n|]|e|] s1];
    cbn [fst] in *; try discriminate H. injection H as ->. reflexivity.
Qed.

(** ** [first_path] *)

Section Sorting.

Context {A : Type} (le : A -> A -> bool).
Hypothesis le_total : forall a b, le a b = true \/ le b a = true.
Hypothesis le_trans : forall a b c, le a b = true -> le b c = true -> le a c = true.

Lemma insert_by_sorted x l : sorted le l -> sorted le (Text.insert_by le x l).
Proof.
  induction l as [|y l IH]; simpl; [intros _; split; [intros ? []|exact I]|].
  intros [Hy Hl]. destruct (le x y) eqn:E; simpl.
  - split; [|auto]. intros z [<- | Hz]; [exact E|]. eauto.
  - split; [|auto]. intros z Hz. apply in_insert_by in Hz as [-> | Hz]; [|auto].
    destruct (le_total x y) as [H | H]; [congruence | exact H].
Qed.

Lemma order_by_sorted l : sorted le (Text.order_by le l).
Proof.
  induction l as [|x l IH]; simpl; [exact I | apply insert_by_sorted, IH].
Qed.

(** The first row of an [ORDER BY] sorts no later than any row. *)
Lemma order_by_head_least l x rest :
  Text.order_by le l = x :: rest -> forall y, In y l -> le x y = true.
Proof.
  intros E y Hy. pose proof (order_by_sorted l) as Hs. rewrite E in Hs.
  destruct Hs as [Hb _]. apply (in_order_by le) in Hy. rewrite E in Hy.
  destruct Hy as [<- | Hy]; [|auto].
  destruct (le_total x x); assumption.
Qed.

End Sorting.

Lemma leb_trans a b c :
  String.leb a b = true -> String.leb b c = true -> String.leb a c = true.
Proof.
  intros H1 H2. apply Is_true_true.
  apply (@transitivity _ String.le _ a b c); apply Is_true_true; assumption.
Qed.

Lemma compare_lt_trans a b c :
  String.compare a b = Lt -> String.compare b c = Lt -> String.compare a c = Lt.
Proof.
  intros H1 H2.
  assert (L : String.leb a c = true).
  { apply (leb_trans a b c); unfold String.leb; [rewrite H1 | rewrite H2]; reflexivity. }
  unfold String.leb in L. destruct (String.compare a c) eqn:E; try discriminate L.
  - apply String.compare_eq_iff in E. subst c.
    rewrite (String.compare_antisym b a), H1 in H2. discriminate H2.
  - reflexivity.
Qed.

Lemma by_status_id_total a b :
  Sql.by_status_id a b = true \/ Sql.by_status_id b a = true.
Proof.
  unfold Sql.by_status_id.
  rewrite (String.compare_antisym (n_status (r_n b)) (n_status (r_n a))).
  destruct (String.compare (n_status (r_n a)) (n_status (r_n b))); simpl; auto.
  apply String.leb_total.
Qed.

Lemma by_status_id_trans a b c :
  Sql.by_status_id a b = true -> Sql.by_status_id b c = true ->
  Sql.by_status_id a c = true.
Proof.
  unfold Sql.by_status_id.
  destruct (String.compare (n_status (r_n a)) (n_status (r_n b))) eqn:E1;
    try discriminate;
    destruct (String.compare (n_status (r_n b)) (n_status (r_n c))) eqn:E2;
    try discriminate; intros H1 H2.
  - apply String.compare_eq_iff in E1, E2. rewrite E1, E2, compare_refl.
    eapply leb_trans; eassumption.
  - apply String.compare_eq_iff in E1. rewrite E1, E2. reflexivity.
  - apply String.compare_eq_iff in E2. rewrite <- E2, E1. reflexivity.
  - rewrite (compare_lt_trans _ _ _ E1 E2). reflexivity.
Qed.

Lemma by_status_id_antisym a b :
  Sql.by_status_id a b = true -> Sql.by_status_id b a = true ->
  n_id (r_n a) = n_id (r_n b).
Proof.
  unfold Sql.by_status_id.
  rewrite (String.compare_antisym (n_status (r_n b)) (n_status (r_n a))).
  destruct (String.compare (n_status (r_n a)) (n_status (r_n b))); simpl;
    try discriminate.
  apply String.leb_antisym.
Qed.

Lemma in_parent_rows st child row :
  In row (Sql.node_only (Sql.parent_edges st child)) ->
  In (r_n row) (nodes st) /\ r_f row = None.
Proof.
  unfold Sql.node_only, Sql.parent_edges. intros H.
  apply in_map_iff in H as ([n p] & <- & Hnp). simpl. split; [|reflexivity].
  apply filter_In in Hnp as [Hnp _]. unfold Sql.join_parent in Hnp.
  apply in_flat_map in Hnp as (n' & Hn' & Hp).
  apply in_map_iff in Hp as (p' & E & _). injection E as -> ->. exact Hn'.
Qed.

Lemma nodup_key_inj {A} (f : A -> string) (l : list A) x y :
  List.NoDup (List.map f l) -> In x l -> In y l -> f x = f y -> x = y.
Proof.
  induction l as [|z l IH]; intros Hnd Hx Hy E; [destruct Hx|].
  simpl in Hnd. apply NoDup_cons_iff in Hnd as [Hz Hnd].
  destruct Hx as [-> | Hx], Hy as [-> | Hy]; auto.
  - exfalso. apply Hz. rewrite E. apply in_map. exact Hy.
  - exfalso. apply Hz. rewrite <- E. apply in_map. exact Hx.
Qed.

(** The first parent is the first row of [FIND_FIRST_PARENT_SQL]. *)
Lemma first_parent_head st child row :
  primary_keys st -> first_parent st child row ->
  exists rest, rows (FIND_FIRST_PARENT_SQL child) st = row :: rest.
Proof.
  intros [Hk _] [Hin Hmin].
  change (rows (FIND_FIRST_PARENT_SQL child) st)
    with (Text.order_by Sql.by_status_id (Sql.node_only (Sql.parent_edges st child))).
  destruct (Text.order_by Sql.by_status_id (Sql.node_only (Sql.parent_edges st child)))
    as [|h rest] eqn:E.
  - apply (in_order_by Sql.by_status_id) in Hin. rewrite E in Hin. destruct Hin.
  - exists rest. f_equal.
    assert (Hh : In h (Sql.node_only (Sql.parent_edges st child))).
    { apply (in_order_by Sql.by_status_id). rewrite E. left. reflexivity. }
    pose proof (order_by_head_least Sql.by_status_id by_status_id_total
                  by_status_id_trans _ _ _ E row Hin) as H1.
    pose proof (Hmin h Hh) as H2.
    pose proof (by_status_id_antisym _ _ H1 H2) as Hid.
    destruct (in_parent_rows _ _ _ Hh) as [Hhn Hhf].
    destruct (in_parent_rows _ _ _ Hin) as [Hrn Hrf].
    pose proof (nodup_key_inj n_id _ _ _ Hk Hhn Hrn Hid) as En.
    destruct h, row. simpl in *. congruence.
Qed.

Lemma first_path_eq fuel id s :
  first_path (S fuel) id s =
  if String.eqb id (root_id s) then (Return "/", s)
  else
    let q := FIND_FIRST_PARENT_SQL id in
    match rows q (conn s) with
    | [] => (Raise TypeError, logged q s)
    | r :: _ =>
        if String.eqb (n_id (r_n r)) (root_id s)
        then (Return (simple_name (Node_init r)), logged q s)
        else
          match first_path fuel (n_id (r_n r)) (logged q s) with
          | (Return p, s') => (Return (p +:+ n_name (r_n r) +:+ "/"), s')
          | (Raise e, s') => (Raise e, s')
          | (OutOfFuel, s') => (OutOfFuel, s')
          end
    end.
Proof.
  cbn [first_path]. cbv beta iota zeta delta [bind get_root_id].
  destruct (String.eqb id (root_id s)); [reflexivity|].
  rewrite execute_select by reflexivity.
  destruct (rows (FIND_FIRST_PARENT_SQL id) (conn s)) as [|r l]; [reflexivity|].
  change (node_id (Node_init r)) with (n_id (r_n r)).
  change (node_name (Node_init r)) with (n_name (r_n r)).
  destruct (String.eqb (n_id (r_n r)) (root_id s)); [reflexivity|].
  destruct (first_path fuel (n_id (r_n r)) (logged (FIND_FIRST_PARENT_SQL id) s))
    as [[p|e|] s']; reflexivity.
Qed.

Lemma dir_path_snoc names name :
  dir_path (names ++ [name]) = dir_path names +:+ name +:+ "/".
Proof. unfold dir_path. rewrite fold_left_app. reflexivity. Qed.

Lemma first_path_folder st root id names :
  first_parents st root id names -> primary_keys st ->
  forall fuel s, conn s = st -> root_id s = root ->
    List.length names < fuel ->
    exists s', first_path fuel id s = (Return (dir_path names), s') /\
               conn s' = st /\ root_id s' = root.
Proof.
  induction 1 as [| id row Hne Hfp Hroot Hsn | id row names Hne Hfp Hnr Hup IH];
    intros Hk fuel s Hc Hr Hfuel;
    (destruct fuel as [|fuel]; [simpl in Hfuel; lia|]);
    rewrite first_path_eq.
  - rewrite Hr, String.eqb_refl. eauto.
  - rewrite Hr. rewrite (proj2 (String.eqb_neq id root) Hne). cbv zeta.
    destruct (first_parent_head _ _ _ Hk Hfp) as [rest Hrows].
    rewrite Hc, Hrows, Hroot, String.eqb_refl, Hsn.
    eexists. split; [reflexivity|]. autorewrite with self. auto.
  - rewrite Hr. rewrite (proj2 (String.eqb_neq id root) Hne). cbv zeta.
    destruct (first_parent_head _ _ _ Hk Hfp) as [rest Hrows].
    rewrite Hc, Hrows. rewrite (proj2 (String.eqb_neq _ root) Hnr).
    rewrite length_app in Hfuel. simpl in Hfuel.
    destruct (IH Hk fuel (logged (FIND_FIRST_PARENT_SQL id) s)) as (s' & E & Hc' & Hr');
      autorewrite with self; auto; [lia|].
    rewrite E. rewrite dir_path_snoc. eauto.
Qed.

(** C3 (amended). [first_path] returns one path, that of the folder
    containing the node, with a trailing separator and without the
    node's own name: following at each step the parent that sorts first
    by status and then by id, through the folders named [names] from
    the root down, the result is "/" followed by each of these names and
    a separator ("/a/" for a node inside folder a under the root, "/"
    for the root and the entries directly under it); a repeated call on
    the same store returns the same path. *)
Theorem first_path_is_the_containing_folder :
  forall (s : Self) (id : string) (names : list string) (fuel : nat),
    primary_keys (conn s) ->
    first_parents (conn s) (root_id s) id names ->
    List.length names < fuel ->
    exists s',
      first_path fuel id s = (Return (dir_path names), s') /\
      fst (first_path fuel id s') = Return (dir_path names).
Proof.
  intros s id names fuel Hk Hfp Hfuel.
  destruct (first_path_folder _ _ _ _ Hfp Hk fuel s eq_refl eq_refl Hfuel)
    as (s' & E & Hc & Hr).
  exists s'. split; [exact E|].
  rewrite <- Hc in Hk. rewrite <- Hc, <- Hr in Hfp.
  destruct (first_path_folder _ _ _ _ Hfp Hk fuel s' eq_refl eq_refl Hfuel)
    as (s'' & E' & _).
  rewrite E'. reflexivity.
Qed.

Lemma tree_first_parents : first_parents Sample.tree "R" "B" ["a"].
Proof.
  apply (first_parents_up _ _ "B" {| r_n := Sample.a; r_f := None |} []).
  - discriminate.
  - split.
    + left. reflexivity.
    + intros m [<- | []]. reflexivity.
  - discriminate.
  - apply (first_parents_top _ _ "A" {| r_n := Sample.root; r_f := None |}).
    + discriminate.
    + split.
      * left. reflexivity.
      * intros m [<- | []]. reflexivity.
    + reflexivity.
    + reflexivity.
Defined.

Lemma first_path_is_the_containing_folder_witness :
  exists s',
    first_path 3 "B" (fresh Sample.tree "R") = (Return "/a/", s') /\
    fst (first_path 3 "B" s') = Return "/a/".
Proof.
  apply (first_path_is_the_containing_folder (fresh Sample.tree "R") "B" ["a"] 3).
  - exact tree_keys.
  - exact tree_first_parents.
  - simpl. lia.
Defined.

(** C3 as stated fails: for the file b inside folder a under the root,
    [first_path] does not return "/a/b", the path to the node itself, but
    "/a/", the path of its folder. *)
Lemma first_path_omits_the_node_name :
  n_name Sample.b = "b" /\
  Sql.child_of Sample.tree "b" "A" = [Sample.file_row Sample.b (Sample.file "B" 3)] /\
  Sql.child_of Sample.tree "a" "R" = [Sample.folder_row Sample.a] /\
  fst (first_path 3 "B" (fresh Sample.tree "R")) = Return "/a/" /\
  "/a/" <> "/a/b".
Proof.
  repeat split; try reflexivity. discriminate.
Qed.

(** ** [all_path] *)

Lemma get_node_coherent i s row rest :
  ids_coherent s -> rows (NODE_BY_ID_SQL i) (conn s) = row :: rest ->
  exists s1,
    get_node i s = (Return (Some (Node_init row)), s1) /\
    conn s1 = conn s /\ root_id s1 = root_id s /\ ids_coherent s1.
Proof.
  intros Hi Hrow.
  assert (Hid : node_id (Node_init row) = i).
  { simpl. apply (node_by_id_id i (conn s)). rewrite Hrow. left. reflexivity. }
  rewrite get_node_eq.
  destruct (node_id_to_node_cache s !! i) as [m|] eqn:Hm.
  - destruct (Hi i m Hm) as (row' & rest' & Hrow' & Em).
    rewrite Hrow in Hrow'. injection Hrow' as E1 E2. subst row' rest' m.
    exists s. auto.
  - rewrite Hrow.
    assert (Hl : ids_coherent (logged (NODE_BY_ID_SQL i) s)).
    { intros j m. autorewrite with self. apply Hi. }
    destruct (is_available (Node_init row)).
    + eexists. split; [reflexivity|]. autorewrite with self. split_and!; auto.
      intros j m. autorewrite with self. rewrite lookup_insert.
      case_decide as E.
      * intros [= <-]. rewrite <- E, Hid. eauto.
      * apply Hi.
    + eexists. split; [reflexivity|]. autorewrite with self. auto.
Qed.

Lemma join_component name sfx :
  Path.component name -> Path.startswith_sep sfx = false ->
  Path.join name sfx = name +:+ "/" +:+ sfx.
Proof.
  intros [Hne Hns] Hs. unfold Path.join. rewrite Hs, Hne.
  rewrite (endswith_no_sep name Hne Hns). reflexivity.
Qed.

Lemma component_led name sfx :
  Path.component name ->
  Path.nonempty (name +:+ sfx) = true /\ Path.startswith_sep (name +:+ sfx) = false.
Proof.
  intros [Hne Hns]. destruct name as [|c name]; [discriminate Hne|].
  simpl in Hns. apply andb_prop in Hns as [Hc _]. apply negb_true_iff in Hc.
  split; [reflexivity | exact Hc].
Qed.

Lemma bind_congr {A B} (m : M A) (k k' : A -> M B) s :
  (forall a s1, k a s1 = k' a s1) -> bind m k s = bind m k' s.
Proof.
  intros H. unfold bind. destruct (m s) as [[a|e|] s1]; auto.
Qed.

(** The loop over the parent rows visits the available parents only. *)
Lemma parents_loop_skips fuel sfx (l : list Row) :
  forall acc s,
    for_each l acc
      (fun parent acc =>
         let parent := Node_init parent in
         if is_available parent then
           let* more := all_path fuel (node_id parent) (Some sfx) in
           ret (acc ++ more)
         else ret acc) s
    = for_each (List.filter is_available (List.map Node_init l)) acc
        (fun parent acc =>
           let* more := all_path fuel (node_id parent) (Some sfx) in
           ret (acc ++ more)) s.
Proof.
  induction l as [|r l IH]; intros acc s; [reflexivity|].
  cbn [for_each List.map List.filter].
  destruct (is_available (Node_init r)) eqn:Ha.
  - cbn [for_each]. apply bind_congr. intros acc' s1. apply IH.
  - unfold bind at 1. cbn [ret]. apply IH.
Qed.

Lemma all_path_eq fuel id sfx s :
  all_path (S fuel) id sfx s =
  if String.eqb id (root_id s) then
    match sfx with
    | Some x => (Return ["/" +:+ x], s)
    | None => (Raise TypeError, s)
    end
  else
    match get_node id s with
    | (Return (Some n), s1) =>
        let sfx' :=
          if truthy sfx then Path.join (node_name n) (default "" sfx)
          else node_name n in
        for_each
          (List.filter is_available
             (List.map Node_init (rows (PARENTS_SQL (node_id n)) (conn s1))))
          []
          (fun parent acc =>
             let* more := all_path fuel (node_id parent) (Some sfx') in
             ret (acc ++ more))
          (logged (PARENTS_SQL (node_id n)) s1)
    | (Return None, s1) => (Return [], s1)
    | (Raise e, s1) => (Raise e, s1)
    | (OutOfFuel, s1) => (OutOfFuel, s1)
    end.
Proof.
  cbn [all_path]. cbv beta iota zeta delta [bind get_root_id].
  destruct (String.eqb id (root_id s)); [destruct sfx; reflexivity|].
  destruct (get_node id s) as [[[n|]|e|] s1]; try reflexivity.
  rewrite execute_select by reflexivity.
  apply parents_loop_skips.
Qed.

Lemma path_under_snoc names name sfx :
  path_under (names ++ [name]) sfx = path_under names (name +:+ "/" +:+ sfx).
Proof. unfold path_under. rewrite fold_right_app. reflexivity. Qed.

Lemma all_path_sole st root id names :
  sole_path st root id names -> Forall Path.component names ->
  forall fuel s sfx,
    conn s = st -> root_id s = root -> ids_coherent s ->
    List.length names < fuel ->
    Path.nonempty sfx = true -> Path.startswith_sep sfx = false ->
    exists s',
      all_path fuel id (Some sfx) s = (Return [path_under names sfx], s') /\
      conn s' = st /\ root_id s' = root /\ ids_coherent s'.
Proof.
  induction 1 as [| id row rest p names Hne Hrow Hpar Hup IH];
    intros Hnames fuel s sfx Hc Hr Hi Hfuel Hsn Hss;
    (destruct fuel as [|fuel]; [simpl in Hfuel; lia|]);
    rewrite all_path_eq.
  - rewrite Hr, String.eqb_refl. eauto.
  - rewrite Hr. rewrite (proj2 (String.eqb_neq id root) Hne).
    rewrite <- Hc in Hrow.
    destruct (get_node_coherent id s row rest Hi Hrow) as (s1 & E & Hc1 & Hr1 & Hi1).
    rewrite E. cbv zeta.
    apply Forall_app in Hnames as [Hnames Hname].
    apply Forall_inv in Hname.
    assert (Hid : node_id (Node_init row) = id).
    { simpl. apply (node_by_id_id id (conn s)). rewrite Hrow. left. reflexivity. }
    rewrite Hid, Hc1, Hc.
    change (List.filter is_available (List.map Node_init (rows (PARENTS_SQL id) st)))
      with (available_parents st id).
    rewrite Hpar. unfold truthy. rewrite Hsn. cbn [from_option].
    change (Datatypes.id sfx) with sfx.
    change (node_name (Node_init row)) with (n_name (r_n row)).
    rewrite (join_component _ _ Hname Hss).
    cbn [for_each]. unfold bind at 1 2.
    rewrite length_app in Hfuel. simpl in Hfuel.
    destruct (component_led (n_name (r_n row)) ("/" +:+ sfx) Hname) as [Hn1 Hn2].
    assert (Hl : ids_coherent (logged (PARENTS_SQL id) s1)).
    { intros j m. autorewrite with self. apply Hi1. }
    destruct (IH Hnames fuel (logged (PARENTS_SQL id) s1)
                (n_name (r_n row) +:+ "/" +:+ sfx))
      as (s' & E' & Hc' & Hr' & Hi'); autorewrite with self;
      try congruence; try lia; try assumption.
    rewrite E'. cbn [ret app]. rewrite path_under_snoc. eauto.
Qed.

Lemma component_start name :
  Path.component name ->
  Path.nonempty name = true /\ Path.startswith_sep name = false.
Proof.
  intros [Hne Hns]. destruct name as [|c name]; [discriminate Hne|].
  simpl in Hns. apply andb_prop in Hns as [Hc _]. apply negb_true_iff in Hc.
  split; [reflexivity | exact Hc].
Qed.

Lemma descend_concat names name :
  fold_right (fun n acc => n +:+ "/" +:+ acc) name names
  = String.concat "/" (names ++ [name]).
Proof.
  induction names as [|x names IH]; [reflexivity|].
  cbn [fold_right]. rewrite IH. cbn [app].
  destruct (names ++ [name]) as [|y ys] eqn:E; [|reflexivity].
  destruct names; discriminate E.
Qed.

Lemma path_under_full names name :
  path_under names name = full_path (names ++ [name]).
Proof. unfold path_under, full_path. rewrite descend_concat. reflexivity. Qed.

(** C8. Multi-parent completeness: for a node other than the root whose
    available parents are exactly A and B (in the order the parents are
    listed), each reached from the root by exactly one path through
    available parents, [all_path] returns exactly the two full paths
    from the root to the node, the one through A and the one through B;
    parents that are not available are skipped at every level. *)
Theorem all_path_two_parents :
  forall (s : Self) (id : string) (row : Row) (rest : list Row)
         (A B : Node) (namesA namesB : list string) (fuel : nat),
    ids_coherent s -> id <> root_id s ->
    rows (NODE_BY_ID_SQL id) (conn s) = row :: rest ->
    available_parents (conn s) id = [A; B] ->
    sole_path (conn s) (root_id s) (node_id A) namesA ->
    sole_path (conn s) (root_id s) (node_id B) namesB ->
    Forall Path.component (n_name (r_n row) :: namesA ++ namesB) ->
    List.length namesA < fuel -> List.length namesB < fuel ->
    fst (all_path (S fuel) id None s)
    = Return [full_path (namesA ++ [n_name (r_n row)]);
              full_path (namesB ++ [n_name (r_n row)])].
Proof.
  intros s id row rest A B namesA namesB fuel Hi Hne Hrow Hpar HA HB Hnames HfA HfB.
  apply Forall_cons_iff in Hnames as [Hname Hnames].
  apply Forall_app in Hnames as [HnA HnB].
  destruct (component_start _ Hname) as [Hn1 Hn2].
  rewrite all_path_eq. rewrite (proj2 (String.eqb_neq id (root_id s)) Hne).
  destruct (get_node_coherent id s row rest Hi Hrow) as (s1 & E & Hc1 & Hr1 & Hi1).
  rewrite E. cbv zeta.
  assert (Hid : node_id (Node_init row) = id).
  { simpl. apply (node_by_id_id id (conn s)). rewrite Hrow. left. reflexivity. }
  rewrite Hid, Hc1.
  change (List.filter is_available
            (List.map Node_init (rows (PARENTS_SQL id) (conn s))))
    with (available_parents (conn s) id).
  rewrite Hpar. cbn [truthy].
  change (node_name (Node_init row)) with (n_name (r_n row)).
  assert (Hl : ids_coherent (logged (PARENTS_SQL id) s1)).
  { intros j m. autorewrite with self. apply Hi1. }
  cbn [for_each]. unfold bind at 1 2.
  destruct (all_path_sole _ _ _ _ HA HnA fuel (logged (PARENTS_SQL id) s1)
              (n_name (r_n row)))
    as (s2 & E2 & Hc2 & Hr2 & Hi2); autorewrite with self;
    try congruence; try assumption.
  rewrite E2. cbn [ret app]. unfold bind at 1 2.
  destruct (all_path_sole _ _ _ _ HB HnB fuel s2 (n_name (r_n row)))
    as (s3 & E3 & _); try congruence; try assumption.
  rewrite E3. cbn [ret app fst]. rewrite !path_under_full. reflexivity.
Qed.

Lemma ids_coherent_fresh st root : ids_coherent (fresh st root).
Proof. intros i n. simpl. rewrite lookup_empty. discriminate. Qed.

Lemma shared_a : sole_path Sample.shared "R" "A" ["a"].
Proof.
  apply (sole_path_step _ _ "A" (Sample.folder_row Sample.a) []
           (Node_init (Sample.folder_row Sample.root)) []).
  - discriminate.
  - reflexivity.
  - reflexivity.
  - apply sole_path_root.
Defined.

Lemma shared_c : sole_path Sample.shared "R" "C" ["c"].
Proof.
  apply (sole_path_step _ _ "C" (Sample.folder_row Sample.c) []
           (Node_init (Sample.folder_row Sample.root)) []).
  - discriminate.
  - reflexivity.
  - reflexivity.
  - apply sole_path_root.
Defined.

Lemma all_path_two_parents_witness :
  fst (all_path 3 "N" None (fresh Sample.shared "R")) = Return ["/a/n"; "/c/n"].
Proof.
  apply (all_path_two_parents (fresh Sample.shared "R") "N"
           (Sample.file_row Sample.n (Sample.file "N" 1)) []
           (Node_init (Sample.folder_row Sample.a))
           (Node_init (Sample.folder_row Sample.c)) ["a"] ["c"] 2).
  - apply ids_coherent_fresh.
  - discriminate.
  - reflexivity.
  - reflexivity.
  - exact shared_a.
  - exact shared_c.
  - repeat constructor.
  - simpl. lia.
  - simpl. lia.
Defined.

(** ** Identity of [Node] objects *)

Lemma construct_all_addresses next l o :
  In o (Identity.construct_all next l) -> next <= Identity.address o.
Proof.
  revert next. induction l as [|row l IH]; intros next; simpl; [intros []|].
  intros [<- | H]; [simpl; lia|]. specialize (IH _ H). lia.
Qed.

Lemma construct_all_distinct next l a b :
  In a (Identity.construct_all next l) -> In b (Identity.construct_all next l) ->
  Identity.address a = Identity.address b -> a = b.
Proof.
  revert next. induction l as [|row l IH]; intros next; simpl; [intros []|].
  intros [<- | Ha] [<- | Hb] E; simpl in E.
  - reflexivity.
  - apply construct_all_addresses in Hb. lia.
  - apply construct_all_addresses in Ha. lia.
  - eapply IH; eassumption.
Qed.

(** C5 (amended). Node identity: for two Node objects built from store
    rows, their hashes are equal whenever their ids are equal (only the
    id is hashed, the name plays no part); the class defines no
    equality of its own, so [a == b] holds exactly when [a] and [b] are
    the same object, and then their ids are equal. *)
Theorem node_identity :
  forall (str_hash : string -> Z) (next : nat) (l : list Row) (a b : Identity.object),
    In a (Identity.construct_all next l) ->
    In b (Identity.construct_all next l) ->
    (node_id (Identity.attrs a) = node_id (Identity.attrs b) ->
     Identity.node_hash str_hash a = Identity.node_hash str_hash b) /\
    (Identity.equal a b = true <-> a = b) /\
    (Identity.equal a b = true ->
     node_id (Identity.attrs a) = node_id (Identity.attrs b)).
Proof.
  intros str_hash next l a b Ha Hb.
  assert (Heq : Identity.equal a b = true <-> a = b).
  { unfold Identity.equal. rewrite Nat.eqb_eq. split.
    - apply (construct_all_distinct next l); assumption.
    - intros ->. reflexivity. }
  split_and!.
  - unfold Identity.node_hash. intros ->. reflexivity.
  - exact Heq.
  - intros H. apply Heq in H. subst b. reflexivity.
Qed.

Lemma node_identity_witness :
  let a := fst (Identity.construct 0 (Sample.folder_row Sample.a)) in
  let b := fst (Identity.construct 1 (Sample.folder_row Sample.c)) in
  (node_id (Identity.attrs a) = node_id (Identity.attrs b) ->
   Identity.node_hash (fun i => Z.of_nat (String.length i)) a
   = Identity.node_hash (fun i => Z.of_nat (String.length i)) b) /\
  (Identity.equal a b = true <-> a = b) /\
  (Identity.equal a b = true ->
   node_id (Identity.attrs a) = node_id (Identity.attrs b)).
Proof.
  apply (node_identity (fun i => Z.of_nat (String.length i)) 0
           [Sample.folder_row Sample.a; Sample.folder_row Sample.c]).
  - left. reflexivity.
  - right. left. reflexivity.
Defined.

(** C5 as stated fails: two Node objects built one after the other from
    the same row have the same id, and the same hash, but are not equal. *)
Lemma same_id_nodes_are_not_equal :
  exists a b,
    Identity.construct_all 0 [Sample.folder_row Sample.a; Sample.folder_row Sample.a]
    = [a; b] /\
    node_id (Identity.attrs a) = node_id (Identity.attrs b) /\
    Identity.equal a b = false.
Proof.
  eexists. eexists. split; [reflexivity|]. split; reflexivity.
Qed.

(** ** What is cached by id *)

Section AvailableIds.

Variable st : Store.
Variable root : string.
Hypothesis root_ok :
  forall row rest,
    rows (NODE_BY_ID_SQL root) st = row :: rest ->
    is_available (Node_init row) = true.

Local Abbreviation inv := (available_cache st root).

Lemma keeps_ret {A} (a : A) : keeps st root (ret a).
Proof. intros s H. exact H. Qed.

Lemma keeps_raise {A} e : keeps st root (@raise A e).
Proof. intros s H. exact H. Qed.

Lemma keeps_out_of_fuel {A} : keeps st root (@out_of_fuel A).
Proof. intros s H. exact H. Qed.

Lemma keeps_get_root_id : keeps st root get_root_id.
Proof. intros s H. exact H. Qed.

Lemma keeps_cached_node i : keeps st root (cached_node i).
Proof.
  intros s H. unfold cached_node. destruct (node_id_to_node_cache s !! i); exact H.
Qed.

Lemma keeps_cached_path p : keeps st root (cached_path p).
Proof.
  intros s H. unfold cached_path. destruct (path_to_node_id_cache s !! p); exact H.
Qed.

Lemma keeps_cache_path p i : keeps st root (cache_path p i).
Proof. intros s H. exact H. Qed.

Lemma inv_with_node n s : is_available n = true -> inv s -> inv (with_node n s).
Proof.
  intros Ha (Hc & Hr & Hi). split_and!; auto.
  intros i m. autorewrite with self. rewrite lookup_insert. case_decide.
  - intros [= <-]. exact Ha.
  - apply Hi.
Qed.

Lemma inv_with_path p i s : inv s -> inv (with_path p i s).
Proof. intros H. exact H. Qed.

Lemma inv_logged {R} (q : Statement R) s :
  is_select q = true -> inv s -> inv (logged q s).
Proof.
  intros Hq (Hc & Hr & Hi). split_and!.
  - rewrite conn_logged; auto.
  - autorewrite with self. exact Hr.
  - intros i m. autorewrite with self. apply Hi.
Qed.

Lemma keeps_cache_node n : is_available n = true -> keeps st root (cache_node n).
Proof. intros Ha s H. apply (inv_with_node n s Ha H). Qed.

Lemma keeps_execute {R} (q : Statement R) :
  is_select q = true -> keeps st root (execute q).
Proof. intros Hq s H. apply (inv_logged q s Hq H). Qed.

Lemma keeps_bind {A B} (m : M A) (k : A -> M B) :
  keeps st root m -> (forall a, keeps st root (k a)) -> keeps st root (bind m k).
Proof.
  intros Hm Hk s H. unfold bind. specialize (Hm s H).
  destruct (m s) as [[a|e|] s1]; simpl in *; auto; apply Hk; exact Hm.
Qed.

Lemma keeps_try_return {A} (body rest : M A) :
  keeps st root body -> keeps st root rest -> keeps st root (try_return body rest).
Proof.
  intros Hb Hr s H. unfold try_return. specialize (Hb s H).
  destruct (body s) as [[a|e|] s1]; simpl in *; auto; apply Hr; exact Hb.
Qed.

Lemma keeps_for_each {A B} (l : list A) (body : A -> B -> M B) :
  (forall x acc, keeps st root (body x acc)) ->
  forall acc, keeps st root (for_each l acc body).
Proof.
  intros Hbody. induction l as [|x l IH]; intros acc; simpl.
  - apply keeps_ret.
  - apply keeps_bind; auto.
Qed.

Ltac keeps_step :=
  first
    [ assumption
    | apply keeps_ret
    | apply keeps_raise
    | apply keeps_out_of_fuel
    | apply keeps_get_root_id
    | apply keeps_cached_node
    | apply keeps_cached_path
    | apply keeps_cache_path
    | apply keeps_execute; reflexivity
    | apply keeps_cache_node; assumption
    | apply keeps_try_return
    | apply keeps_bind; [ | intros ? ]
    | apply keeps_for_each; intros ? ?
    | match goal with
      | |- keeps _ _ (if is_available ?n then _ else _) =>
          let E := fresh "Ha" in destruct (is_available n) eqn:E
      | |- keeps _ _ (match ?x with _ => _ end) => destruct x
      end ].

Ltac keeps_tac := repeat keeps_step.

Lemma keeps_get_node i : keeps st root (get_node i).
Proof. unfold get_node. keeps_tac. Qed.

Lemma keeps_list_children f trash fp : keeps st root (list_children f trash fp).
Proof. unfold list_children. keeps_tac. Qed.

Lemma keeps_first_path fuel : forall i, keeps st root (first_path fuel i).
Proof.
  induction fuel as [|fuel IH]; intros i; simpl; keeps_tac; auto.
Qed.

Lemma keeps_all_path fuel : forall i sfx, keeps st root (all_path fuel i sfx).
Proof.
  induction fuel as [|fuel IH]; intros i sfx; simpl.
  - apply keeps_out_of_fuel.
  - pose proof keeps_get_node.
    apply keeps_bind; [keeps_tac|]. intros r.
    destruct (String.eqb i r); [keeps_tac|].
    apply keeps_bind; [auto|]. intros [n|]; keeps_tac; auto.
Qed.

(** The root that [get_node] yields under the invariant is available. *)
Lemma get_root_available s r s1 :
  inv s -> get_node root s = (Return (Some r), s1) -> is_available r = true.
Proof.
  intros (Hc & Hr & Hi). rewrite get_node_eq.
  destruct (node_id_to_node_cache s !! root) as [m|] eqn:Hm.
  - intros [= <- _]. eauto.
  - rewrite Hc. destruct (rows (NODE_BY_ID_SQL root) st) as [|row rest] eqn:Hrow;
      [discriminate|].
    intros [= <- _]. eauto.
Qed.

Lemma keeps_resolve_rec fuel :
  forall path, keeps st root (resolve_rec fuel path false).
Proof.
  induction fuel as [|fuel IH]; intros path s H; [exact H|].
  rewrite resolve_rec_eq. unfold resolve_step.
  destruct (path_to_node_id_cache s !! path) as [i|].
  - apply keeps_get_node. exact H.
  - destruct (negb (Path.nonempty (snd (Path.split path)))).
    + pose proof (keeps_get_node root s H) as H1.
      pose proof (fun r s1 => get_root_available s r s1 H) as Ha.
      pose proof H as (_ & Hr & _). rewrite Hr.
      destruct (get_node root s) as [[[r|]|e|] s1]; simpl in *; auto.
      apply inv_with_path, inv_with_node; eauto.
    + specialize (IH (fst (Path.split path)) s H).
      destruct (resolve_rec fuel (fst (Path.split path)) false s)
        as [[[parent|]|e|] s1]; simpl in *; auto.
      destruct (rows _ (conn s1)) as [|r r2]; simpl.
      * apply inv_logged; auto.
      * destruct (is_available (Node_init r)) eqn:Ha; simpl.
        -- apply inv_with_path, inv_with_node; auto using inv_logged.
        -- apply inv_logged; auto.
Qed.

Lemma keeps_perform c : trash_free c = true -> keeps st root (perform c).
Proof.
  pose proof keeps_get_node. pose proof keeps_list_children.
  intros Hc.
  destruct c; try (destruct trash; try discriminate Hc);
    unfold perform, forget;
    (apply keeps_bind; [ | intros; apply keeps_ret ]);
    unfold get_root_node, get_conflicting_node, resolve_id, resolve,
      childrens_names, get_node_count, get_folder_count, get_file_count,
      calculate_usage, num_children, num_parents, get_child,
      list_trashed_children, find_by_name, find_by_md5, find_by_regex,
      file_size_exists, get_property, get_content;
    first
      [ apply keeps_get_node
      | apply keeps_resolve_rec
      | apply keeps_list_children
      | apply keeps_first_path
      | apply keeps_all_path
      | apply keeps_bind;
        [ first [ apply keeps_resolve_rec | apply keeps_list_children
                | apply keeps_get_root_id ]
        | intros; keeps_tac; auto ]
      | keeps_tac ].
Qed.

Lemma reachable_keeps s0 s :
  reachable trash_free s0 s -> inv s0 -> inv s.
Proof.
  induction 1 as [| s c Hreach IH Hc]; intros H0; [exact H0|].
  apply keeps_perform; auto.
Qed.

End AvailableIds.

(** A resolution that finds its node through the store caches the path,
    in trash mode as in normal mode. *)
Lemma resolve_caches_path path trash s n s' :
  path_to_node_id_cache s !! path = None ->
  resolve path trash s = (Return (Some n), s') ->
  path_to_node_id_cache s' !! path = Some (node_id n).
Proof.
  intros Hp. rewrite resolve_eq. unfold resolve_step. rewrite Hp.
  destruct (negb (Path.nonempty (snd (Path.split path)))).
  - destruct (get_node (root_id s) s) as [[[r|]|e|] s1]; try discriminate.
    intros [= <- <-]. autorewrite with self. apply lookup_insert_eq.
  - destruct (resolve (fst (Path.split path)) trash s) as [[[parent|]|e|] s1];
      try discriminate.
    cbv zeta.
    destruct (rows _ (conn s1)) as [|r r2]; [discriminate|].
    destruct (negb (is_available (Node_init r)) && negb trash); [discriminate|].
    destruct (negb (is_available (Node_init r)) && more_rows r2); [discriminate|].
    intros [= <- <-]. autorewrite with self. apply lookup_insert_eq.
Qed.

(** C1 (amended). Over a store whose root row, if any, is available, and
    from a cache whose id map holds available nodes only, every state
    reached by any sequence of query calls other than [resolve] and
    [resolve_id] in trash mode keeps only available nodes in the id
    map ([get_node], [list_children] and normal-mode [resolve] cache a
    node by id only when it is available).  The path map is not
    bypassed in trash mode: a [resolve] call, with or without trash,
    that returns a node for a path not cached before caches that path. *)
Theorem id_cache_holds_available_nodes :
  forall (s0 s : Self),
    root_available s0 -> ids_available s0 ->
    reachable trash_free s0 s ->
    ids_available s /\
    forall path trash n s',
      path_to_node_id_cache s !! path = None ->
      resolve path trash s = (Return (Some n), s') ->
      path_to_node_id_cache s' !! path = Some (node_id n).
Proof.
  intros s0 s Hroot Hids Hreach. split.
  - apply (reachable_keeps (conn s0) (root_id s0) Hroot s0 s Hreach).
    split_and!; auto.
  - intros path trash n s'. apply resolve_caches_path.
Qed.

Lemma id_cache_holds_available_nodes_witness :
  ids_available
    (snd (perform (List_children "R" true (Some ""))
            (snd (perform (Resolve "/x" false) (fresh Sample.tree "R"))))) /\
  forall path trash n s',
    path_to_node_id_cache
      (snd (perform (List_children "R" true (Some ""))
              (snd (perform (Resolve "/x" false) (fresh Sample.tree "R")))))
      !! path = None ->
    resolve path trash
      (snd (perform (List_children "R" true (Some ""))
              (snd (perform (Resolve "/x" false) (fresh Sample.tree "R")))))
    = (Return (Some n), s') ->
    path_to_node_id_cache s' !! path = Some (node_id n).
Proof.
  apply (id_cache_holds_available_nodes (fresh Sample.tree "R")).
  - intros row rest H. injection H as <- _. reflexivity.
  - intros i n. simpl. rewrite lookup_empty. discriminate.
  - apply reach_call; [apply reach_call; [apply reach_start|]|]; reflexivity.
Defined.

(** C1 as stated fails on both counts: the trash-mode lookup of the
    trashed entry x is a query call, and the state it reaches holds the
    trashed node in the id map and the new entry "/x" in the path map. *)
Lemma trash_lookup_caches_trashed_node :
  reachable any_call (fresh Sample.tree "R")
    (snd (perform (Resolve "/x" true) (fresh Sample.tree "R"))) /\
  node_id_to_node_cache (snd (perform (Resolve "/x" true) (fresh Sample.tree "R")))
    !! "X"
  = Some (Node_init (Sample.file_row Sample.x (Sample.file "X" 5))) /\
  is_available (Node_init (Sample.file_row Sample.x (Sample.file "X" 5))) = false /\
  path_to_node_id_cache (fresh Sample.tree "R") !! "/x" = None /\
  path_to_node_id_cache (snd (resolve "/x" true (fresh Sample.tree "R"))) !! "/x"
  = Some "X".
Proof.
  split; [apply reach_call; [apply reach_start | reflexivity]|].
  repeat split; vm_compute; reflexivity.
Qed.

(** * Further properties of the query mixin *)

(** ** [resolve]: the root and paths that end in a separator *)

(** X1. When the store holds the row of the root id, [resolve] never
    raises and never runs out of recursion depth: for every path, trash
    mode and cache state it returns a node or absent. *)
Theorem resolve_returns_when_root_exists :
  forall (s : Self) (row : Row) (rest : list Row) (path : string) (trash : bool),
    rows (NODE_BY_ID_SQL (root_id s)) (conn s) = row :: rest ->
    exists o, fst (resolve path trash s) = Return o.
Proof.
  intros s row rest path trash Hroot.
  remember (String.length path) as k eqn:Hk.
  revert path Hk. induction k as [k IH] using lt_wf_ind. intros path Hk.
  rewrite resolve_eq. unfold resolve_step.
  destruct (path_to_node_id_cache s !! path) as [i|].
  - apply get_node_returns.
  - destruct (Path.nonempty (snd (Path.split path))) eqn:E; cbn [negb].
    + pose proof (split_head_shorter path E) as Hlt.
      specialize (IH (String.length (fst (Path.split path))) ltac:(lia)
                    (fst (Path.split path)) eq_refl).
      destruct IH as [o Ho].
      destruct (resolve (fst (Path.split path)) trash s) as [[[parent|]|e|] s1];
        cbn [fst] in Ho; try discriminate Ho; [|eauto].
      cbv zeta.
      destruct (rows (CHILD_OF_SQL (snd (Path.split path)) (node_id parent)) (conn s1))
        as [|r r2]; [eauto|].
      destruct (negb (is_available (Node_init r)) && negb trash); [eauto|].
      destruct (negb (is_available (Node_init r)) && more_rows r2); eauto.
    + rewrite get_node_eq.
      destruct (node_id_to_node_cache s !! root_id s); [eauto|].
      rewrite Hroot. eauto.
Qed.

Lemma resolve_returns_when_root_exists_witness :
  exists o, fst (resolve "/a/zzz" true (fresh Sample.tree "R")) = Return o.
Proof.
  apply (resolve_returns_when_root_exists (fresh Sample.tree "R")
           (Sample.folder_row Sample.root) []).
  reflexivity.
Defined.

Lemma endswith_rfind p :
  Path.endswith_sep p = true -> Path.rfind_succ p = String.length p.
Proof.
  induction p as [|c p IH]; simpl; [discriminate|].
  destruct p as [|d p].
  - intros ->. reflexivity.
  - intros H. rewrite (IH H). reflexivity.
Qed.

Lemma split_tail_empty p :
  Path.endswith_sep p = true \/ p = "" -> snd (Path.split p) = "".
Proof.
  intros [H | ->]; [|reflexivity].
  unfold Path.split, Path.slice_from. cbn [snd].
  rewrite (endswith_rfind p H), Nat.sub_diag. apply substring_none.
Qed.

(** X2. A path that is empty or ends in a separator names the root:
    whatever precedes the final separator, [resolve] returns the root
    node and caches the path under the root id ("/no/such/folder/"
    resolves to the root). *)
Theorem resolve_trailing_separator_is_root :
  forall (s : Self) (row : Row) (rest : list Row) (path : string) (trash : bool),
    ids_coherent s ->
    rows (NODE_BY_ID_SQL (root_id s)) (conn s) = row :: rest ->
    Path.endswith_sep path = true \/ path = "" ->
    path_to_node_id_cache s !! path = None ->
    fst (resolve path trash s) = Return (Some (Node_init row)) /\
    path_to_node_id_cache (snd (resolve path trash s)) !! path = Some (root_id s).
Proof.
  intros s row rest path trash Hi Hroot Hpath Hp.
  rewrite resolve_eq. unfold resolve_step. rewrite Hp.
  rewrite (split_tail_empty path Hpath). cbn [Path.nonempty negb].
  destruct (get_node_coherent (root_id s) s row rest Hi Hroot) as (s1 & E & _).
  rewrite E. cbn [fst snd]. split; [reflexivity|].
  autorewrite with self.
  assert (Hid : node_id (Node_init row) = root_id s).
  { simpl. apply (node_by_id_id _ (conn s)). rewrite Hroot. left. reflexivity. }
  rewrite Hid. apply lookup_insert_eq.
Qed.

Lemma resolve_trailing_separator_is_root_witness :
  fst (resolve "/no/such/folder/" false (fresh Sample.tree "R"))
  = Return (Some (Node_init (Sample.folder_row Sample.root))) /\
  path_to_node_id_cache (snd (resolve "/no/such/folder/" false (fresh Sample.tree "R")))
    !! "/no/such/folder/" = Some "R".
Proof.
  apply (resolve_trailing_separator_is_root (fresh Sample.tree "R")
           (Sample.folder_row Sample.root) [] "/no/such/folder/" false).
  - apply ids_coherent_fresh.
  - reflexivity.
  - left. reflexivity.
  - reflexivity.
Defined.

(** ** [get_node], [first_path] and [all_path] at their edges *)

(** X3. Asking for the same id twice gives the same answer, and when the
    first answer is an available node the second is served from the id
    cache: no statement is sent for it. *)
Theorem get_node_again :
  forall (i : string) (s : Self),
    fst (get_node i (snd (get_node i s))) = fst (get_node i s) /\
    forall n,
      fst (get_node i s) = Return (Some n) -> is_available n = true ->
      executed (snd (get_node i (snd (get_node i s))))
      = executed (snd (get_node i s)).
Proof.
  intros i s. rewrite (get_node_eq i s).
  destruct (node_id_to_node_cache s !! i) as [m|] eqn:Hm.
  - cbn [fst snd]. rewrite get_node_eq, Hm. auto.
  - destruct (rows (NODE_BY_ID_SQL i) (conn s)) as [|r l] eqn:Hrow.
    + cbn [fst snd]. rewrite get_node_eq. autorewrite with self.
      rewrite Hm, Hrow. split; [reflexivity|]. discriminate.
    + assert (Hid : node_id (Node_init r) = i).
      { simpl. apply (node_by_id_id i (conn s)). rewrite Hrow. left. reflexivity. }
      destruct (is_available (Node_init r)) eqn:Ha; cbn [fst snd].
      * rewrite get_node_eq. autorewrite with self.
        rewrite Hid, lookup_insert_eq. auto.
      * rewrite get_node_eq. autorewrite with self. rewrite Hm, Hrow, Ha.
        split; [reflexivity|]. intros n [= <-]. congruence.
Qed.

(** X4. [first_path] of an id other than the root that has no parent row
    (an orphan, or an id the store does not know) does not return a
    path: it raises, from building a [Node] out of the missing row. *)
Theorem first_path_without_parent_raises :
  forall (fuel : nat) (s : Self) (id : string),
    id <> root_id s -> Sql.parent_edges (conn s) id = [] ->
    fst (first_path (S fuel) id s) = Raise TypeError.
Proof.
  intros fuel s id Hne Hnone. rewrite first_path_eq.
  rewrite (proj2 (String.eqb_neq id (root_id s)) Hne). cbv zeta.
  change (rows (FIND_FIRST_PARENT_SQL id) (conn s))
    with (Text.order_by Sql.by_status_id
            (Sql.node_only (Sql.parent_edges (conn s) id))).
  rewrite Hnone. reflexivity.
Qed.

Lemma first_path_without_parent_raises_witness :
  fst (first_path 1 "nowhere" (fresh Sample.tree "R")) = Raise TypeError.
Proof.
  apply (first_path_without_parent_raises 0 (fresh Sample.tree "R") "nowhere").
  - discriminate.
  - reflexivity.
Defined.

(** X5. [all_path] of an id other than the root returns the empty list,
    without raising, when the id is unknown to the cache and the store,
    and also when the node exists but none of its parents is
    available. *)
Theorem all_path_without_available_parent :
  forall (fuel : nat) (s : Self) (id : string) (sfx : option string),
    ids_coherent s -> id <> root_id s ->
    (node_id_to_node_cache s !! id = None /\
     rows (NODE_BY_ID_SQL id) (conn s) = [])
    \/ (exists row rest, rows (NODE_BY_ID_SQL id) (conn s) = row :: rest /\
                         available_parents (conn s) id = []) ->
    fst (all_path (S fuel) id sfx s) = Return [].
Proof.
  intros fuel s id sfx Hi Hne H. rewrite all_path_eq.
  rewrite (proj2 (String.eqb_neq id (root_id s)) Hne).
  destruct H as [[Hc Hrow] | (row & rest & Hrow & Hpar)].
  - rewrite get_node_eq, Hc, Hrow. reflexivity.
  - destruct (get_node_coherent id s row rest Hi Hrow) as (s1 & E & Hc1 & _).
    rewrite E. cbv zeta.
    assert (Hid : node_id (Node_init row) = id).
    { simpl. apply (node_by_id_id id (conn s)). rewrite Hrow. left. reflexivity. }
    rewrite Hid, Hc1.
    change (List.filter is_available
              (List.map Node_init (rows (PARENTS_SQL id) (conn s))))
      with (available_parents (conn s) id).
    rewrite Hpar. reflexivity.
Qed.

Lemma all_path_without_available_parent_witness :
  fst (all_path 1 "nowhere" None (fresh Sample.tree "R")) = Return [].
Proof.
  apply (all_path_without_available_parent 0 (fresh Sample.tree "R") "nowhere" None).
  - apply ids_coherent_fresh.
  - discriminate.
  - left. split; reflexivity.
Defined.

Lemma for_each_result {A B} (P : B -> Prop) (body : A -> B -> M B) (l : list A) :
  (forall x acc s, P acc ->
     match fst (body x acc s) with Return acc' => P acc' | _ => True end) ->
  forall acc s, P acc ->
    match fst (for_each l acc body s) with Return r => P r | _ => True end.
Proof.
  intros Hbody. induction l as [|x l IH]; intros acc s Hacc; [exact Hacc|].
  cbn [for_each]. unfold bind. pose proof (Hbody x acc s Hacc) as Hx.
  destruct (body x acc s) as [[acc'|e|] s1]; cbn [fst] in *;
    [apply IH; exact Hx | exact I | exact I].
Qed.

(** X6. Every path that [all_path] returns is absolute: it starts with
    the separator, whatever the names and the suffix are. *)
Theorem all_path_returns_absolute_paths :
  forall (fuel : nat) (id : string) (sfx : option string) (s : Self),
    match fst (all_path fuel id sfx s) with
    | Return l => Forall (fun p => Path.startswith_sep p = true) l
    | _ => True
    end.
Proof.
  induction fuel as [|fuel IH]; intros id sfx s; [exact I|].
  rewrite all_path_eq.
  destruct (String.eqb id (root_id s)).
  - destruct sfx; cbn [fst]; [|exact I]. repeat constructor.
  - destruct (get_node id s) as [[[n|]|e|] s1]; cbn [fst]; auto.
    cbv zeta. apply for_each_result; [|constructor].
    intros parent acc s2 Hacc. unfold bind.
    specialize (IH (node_id parent)
                  (Some (if truthy sfx
                         then Path.join (node_name n) (default "" sfx)
                         else node_name n)) s2).
    destruct (all_path fuel (node_id parent) _ s2) as [[more|e|] s3];
      cbn [fst] in *; auto.
    apply Forall_app. auto.
Qed.

(** ** [get_child] and [get_conflicting_node] *)

Lemma child_of_name st name parent row :
  In row (Sql.child_of st name parent) -> n_name (r_n row) = name.
Proof.
  unfold Sql.child_of, Sql.with_files. intros H.
  apply in_flat_map in H as ([n p] & Hnp & Hrow). simpl in Hrow.
  apply filter_In in Hnp as [_ Hc]. simpl in Hc.
  apply andb_prop in Hc as [Hc _]. apply String.eqb_eq in Hc.
  rewrite (in_left_join _ _ _ Hrow). exact Hc.
Qed.

Lemma left_join_nonempty st n : Sql.left_join_files st n <> [].
Proof.
  unfold Sql.left_join_files.
  destruct (List.filter _ (files st)); simpl; discriminate.
Qed.

Lemma with_files_nil st l : Sql.with_files st l = [] -> l = [].
Proof.
  destruct l as [|np l]; [reflexivity|]. unfold Sql.with_files. simpl.
  intros H. apply app_eq_nil in H as [H _].
  exfalso. exact (left_join_nonempty _ _ H).
Qed.

Lemma order_by_nil {A} (le : A -> A -> bool) l : Text.order_by le l = [] -> l = [].
Proof.
  intros H. pose proof (length_order_by le l) as E. rewrite H in E.
  destruct l; [reflexivity | discriminate E].
Qed.

(** X7. [get_child] leaves both caches as they are, never raises, and
    returns only an available node: one that carries the requested name
    and is a child row of the folder. *)
Theorem get_child_returns_available_child :
  forall (f c : string) (s : Self),
    node_id_to_node_cache (snd (get_child f c s)) = node_id_to_node_cache s /\
    path_to_node_id_cache (snd (get_child f c s)) = path_to_node_id_cache s /\
    match fst (get_child f c s) with
    | Return (Some n) =>
        is_available n = true /\ node_name n = c /\
        exists row, In row (Sql.child_of (conn s) c f) /\ n = Node_init row
    | Return None => True
    | _ => False
    end.
Proof.
  intros f c s. unfold get_child, bind. rewrite execute_select by reflexivity.
  destruct (rows (CHILD_OF_SQL c f) (conn s)) as [|r l] eqn:Hrows.
  - cbn [ret fst snd]. autorewrite with self. auto.
  - assert (Hin : In r (Sql.child_of (conn s) c f)).
    { apply (in_order_by Sql.by_status). rewrite <- rows_child_of, Hrows.
      left. reflexivity. }
    destruct (is_available (Node_init r)) eqn:Ha; cbn [ret fst snd];
      autorewrite with self; split_and!; auto.
    + simpl. eapply child_of_name. exact Hin.
    + eauto.
Qed.

Lemma by_status_total a b : Sql.by_status a b = true \/ Sql.by_status b a = true.
Proof. apply String.leb_total. Qed.

Lemma by_status_trans a b c :
  Sql.by_status a b = true -> Sql.by_status b c = true -> Sql.by_status a c = true.
Proof. apply leb_trans. Qed.

(** X8. When the folder has an available child of the requested name,
    and no child of that name has a status that sorts before AVAILABLE,
    [get_child] returns an available node: rows of the same name in the
    trash do not hide it. *)
Theorem get_child_finds_the_available_child :
  forall (f c : string) (s : Self),
    (exists row, In row (Sql.child_of (conn s) c f) /\
                 is_available (Node_init row) = true) ->
    (forall row, In row (Sql.child_of (conn s) c f) ->
                 String.leb "AVAILABLE" (n_status (r_n row)) = true) ->
    exists n, fst (get_child f c s) = Return (Some n) /\ is_available n = true.
Proof.
  intros f c s (row & Hin & Ha) Hst.
  unfold get_child, bind. rewrite execute_select by reflexivity.
  rewrite rows_child_of.
  destruct (Text.order_by Sql.by_status (Sql.child_of (conn s) c f))
    as [|h l] eqn:E.
  - apply order_by_nil in E. rewrite E in Hin. destruct Hin.
  - assert (Hh : In h (Sql.child_of (conn s) c f)).
    { apply (in_order_by Sql.by_status). rewrite E. left. reflexivity. }
    pose proof (order_by_head_least Sql.by_status by_status_total by_status_trans
                  _ _ _ E row Hin) as Hle.
    unfold Sql.by_status in Hle. rewrite (available_status _ Ha) in Hle.
    assert (Hs : is_available (Node_init h) = true).
    { unfold is_available. simpl. apply String.eqb_eq.
      apply String.leb_antisym; [exact Hle | apply Hst; exact Hh]. }
    rewrite Hs. eauto.
Qed.

Lemma get_child_finds_the_available_child_witness :
  exists n, fst (get_child "A" "b" (fresh Sample.tree "R")) = Return (Some n) /\
            is_available n = true.
Proof.
  apply (get_child_finds_the_available_child "A" "b" (fresh Sample.tree "R")).
  - exists (Sample.file_row Sample.b (Sample.file "B" 3)).
    split; [left; reflexivity | reflexivity].
  - intros row [<- | []]. reflexivity.
Defined.

(** X9. [get_conflicting_node] never raises.  The node it returns is an
    available child of the folder whose name, lower-cased by the engine
    (ASCII letters only), equals the requested name as the Python
    runtime lower-cases it; it returns absent only when the folder has
    no such child.  The two lowerings differ outside ASCII, so a request
    with a capital that only the runtime lowers does not match the
    child that bears the requested name itself. *)
Theorem get_conflicting_node_matches_lowered_name :
  forall (str_lower : string -> string) (name parent : string) (s : Self),
    match fst (get_conflicting_node str_lower name parent s) with
    | Return (Some n) =>
        is_available n = true /\
        Text.lower (node_name n) = str_lower name /\
        (node_name n = name -> str_lower name = Text.lower name) /\
        exists np, In np (Sql.join_child (conn s)) /\
                   p_parent (snd np) = parent /\ node_id n = n_id (fst np)
    | Return None =>
        forall np, In np (Sql.join_child (conn s)) ->
                   p_parent (snd np) = parent ->
                   Text.lower (n_name (fst np)) = str_lower name ->
                   Sql.available (fst np) = false
    | _ => False
    end.
Proof.
  intros str_lower name parent s. unfold get_conflicting_node, bind.
  rewrite execute_select by reflexivity.
  change (rows (CONFLICTING_NODE_SQL parent (str_lower name)) (conn s))
    with (Text.order_by Sql.by_name
            (Sql.with_files (conn s)
               (List.filter
                  (fun np => String.eqb (p_parent (snd np)) parent
                             && String.eqb (Text.lower (n_name (fst np))) (str_lower name)
                             && Sql.available (fst np))
                  (Sql.join_child (conn s))))).
  destruct (Text.order_by _ _) as [|r l] eqn:E; cbn [ret fst].
  - apply order_by_nil, with_files_nil in E.
    intros np Hin Hp Hn.
    destruct (Sql.available (fst np)) eqn:Ha; [|reflexivity].
    assert (H : In np []).
    { rewrite <- E. apply filter_In. split; [exact Hin|].
      rewrite Ha, andb_true_r. apply andb_true_intro.
      split; apply String.eqb_eq; assumption. }
    destruct H.
  - assert (Hr : In r (Sql.with_files (conn s)
                 (List.filter
                    (fun np => String.eqb (p_parent (snd np)) parent
                               && String.eqb (Text.lower (n_name (fst np))) (str_lower name)
                               && Sql.available (fst np))
                    (Sql.join_child (conn s))))).
    { apply (in_order_by Sql.by_name). rewrite E. left. reflexivity. }
    unfold Sql.with_files in Hr. apply in_flat_map in Hr as (np & Hnp & Hrow).
    apply filter_In in Hnp as [Hin Hc].
    apply andb_prop in Hc as [Hc Ha]. apply andb_prop in Hc as [Hp Hn].
    apply String.eqb_eq in Hp, Hn.
    pose proof (in_left_join _ _ _ Hrow) as En.
    unfold is_available. simpl. rewrite En. split_and!; auto.
    + intros <-. symmetry. exact Hn.
    + exists np. auto.
Qed.

(** ** [list_children] and [list_trashed_children] *)

Lemma folder_is_no_file n : is_folder n = true -> is_file n = false.
Proof.
  unfold is_folder, is_file. intros H. apply String.eqb_eq in H. rewrite H.
  reflexivity.
Qed.

(** The loop that sorts the rows into folders and files. *)
Lemma list_children_partition trash (l : list Row) :
  forall folders files,
    fold_left
      (fun acc row =>
         let '(folders, files) := acc in
         let node := Node_init row in
         if is_available node || trash then
           if is_file node then (folders, files ++ [node])
           else if is_folder node then (folders ++ [node], files)
           else (folders, files)
         else (folders, files))
      l (folders, files)
    = (folders ++ List.filter (fun n => (is_available n || trash) && is_folder n)
                    (List.map Node_init l),
       files ++ List.filter (fun n => (is_available n || trash) && is_file n)
                  (List.map Node_init l)).
Proof.
  induction l as [|r l IH]; intros folders files; cbn [fold_left List.map List.filter].
  - rewrite !app_nil_r. reflexivity.
  - destruct (is_available (Node_init r) || trash); cbn [andb].
    + destruct (is_file (Node_init r)) eqn:Hf.
      * destruct (is_folder (Node_init r)) eqn:Hd.
        { rewrite (folder_is_no_file _ Hd) in Hf. discriminate Hf. }
        rewrite IH, <- app_assoc. reflexivity.
      * destruct (is_folder (Node_init r)); rewrite IH, <- ?app_assoc; reflexivity.
    + apply IH.
Qed.

(** The loop that primes the caches. *)
Lemma list_children_loop fp (l : list Node) :
  forall s,
    for_each l tt
      (fun c _ =>
         let* _ := (if is_available c then cache_node c else ret tt) in
         match fp with
         | Some fp =>
             if Path.nonempty fp then cache_path (fp +:+ "/" +:+ node_name c) (node_id c)
             else ret tt
         | None => ret tt
         end) s
    = (Return tt, primed fp l s).
Proof.
  induction l as [|c l IH]; intros s; [reflexivity|].
  cbn [for_each]. unfold bind at 1. unfold primed. cbn [fold_left].
  fold (primed fp l (primed_with fp s c)). rewrite <- IH.
  unfold primed_with, bind, truthy.
  destruct (is_available c); destruct fp as [fp|]; cbn [ret cache_node];
    try destruct (Path.nonempty fp); reflexivity.
Qed.

Lemma list_children_eq f trash fp s :
  list_children f trash fp s =
  let folders := List.filter (fun n => (is_available n || trash) && is_folder n)
                   (child_nodes (conn s) f) in
  let files := List.filter (fun n => (is_available n || trash) && is_file n)
                 (child_nodes (conn s) f) in
  (Return (folders, files),
   primed fp (folders ++ files) (logged (CHILDREN_SQL f) s)).
Proof.
  unfold list_children. unfold bind at 1. rewrite execute_select by reflexivity.
  rewrite list_children_partition. cbn [app]. cbv beta iota. unfold bind at 1.
  rewrite list_children_loop. reflexivity.
Qed.

(** X10. [list_children] never raises; the files it returns are exactly
    the child rows of type file, its folders exactly the child rows of
    type folder, in both cases the available ones only unless trash is
    asked for; children of any other type are listed in neither. *)
Theorem list_children_lists_files_and_folders :
  forall (f : string) (trash : bool) (fp : option string) (s : Self),
    exists folders files,
      fst (list_children f trash fp s) = Return (folders, files) /\
      (forall n, In n files <->
                 In n (child_nodes (conn s) f) /\ is_file n = true /\
                 (is_available n = true \/ trash = true)) /\
      (forall n, In n folders <->
                 In n (child_nodes (conn s) f) /\ is_folder n = true /\
                 (is_available n = true \/ trash = true)).
Proof.
  intros f trash fp s. rewrite list_children_eq. cbv zeta. cbn [fst].
  eexists. eexists. split; [reflexivity|].
  split; intros n; rewrite filter_In, andb_true_iff, orb_true_iff; tauto.
Qed.

Lemma primed_none_paths (l : list Node) :
  forall s, path_to_node_id_cache (primed None l s) = path_to_node_id_cache s.
Proof.
  induction l as [|c l IH]; intros s; [reflexivity|].
  unfold primed in *. cbn [fold_left]. rewrite IH.
  unfold primed_with. cbn [truthy]. destruct (is_available c); reflexivity.
Qed.

(** X11. [list_trashed_children] returns trashed nodes only, files under
    files and folders under folders, and leaves the path cache as it
    was. *)
Theorem list_trashed_children_lists_the_trash :
  forall (f : string) (s : Self),
    path_to_node_id_cache (snd (list_trashed_children f s)) = path_to_node_id_cache s /\
    exists folders files,
      fst (list_trashed_children f s) = Return (folders, files) /\
      (forall n, In n files <->
                 In n (child_nodes (conn s) f) /\ is_file n = true /\ is_trashed n = true) /\
      (forall n, In n folders <->
                 In n (child_nodes (conn s) f) /\ is_folder n = true /\ is_trashed n = true).
Proof.
  intros f s. unfold list_trashed_children, bind. rewrite list_children_eq.
  cbv zeta. cbn [ret fst snd]. split.
  - rewrite primed_none_paths. apply paths_logged.
  - eexists. eexists. split; [reflexivity|].
    split; intros n; rewrite !filter_In, andb_true_iff, orb_true_r; tauto.
Qed.

Lemma primed_with_path_other fp s c key :
  (truthy (Some fp) = true -> key <> fp +:+ "/" +:+ node_name c) ->
  path_to_node_id_cache (primed_with (Some fp) s c) !! key
  = path_to_node_id_cache s !! key.
Proof.
  intros Hne. unfold primed_with. cbn [from_option].
  destruct (truthy (Some fp)).
  - autorewrite with self. rewrite lookup_insert_ne by (apply not_eq_sym; auto).
    destruct (is_available c); reflexivity.
  - destruct (is_available c); reflexivity.
Qed.

Lemma primed_path_other fp (l : list Node) key :
  (forall c, In c l -> key <> fp +:+ "/" +:+ node_name c) ->
  forall s, path_to_node_id_cache (primed (Some fp) l s) !! key
            = path_to_node_id_cache s !! key.
Proof.
  induction l as [|c l IH]; intros Hne s; [reflexivity|].
  unfold primed in *. cbn [fold_left]. rewrite IH.
  - apply primed_with_path_other. intros _. apply Hne. left. reflexivity.
  - intros c' Hc'. apply Hne. right. exact Hc'.
Qed.

Lemma primed_ids_other fp (l : list Node) i :
  (forall c, In c l -> i <> node_id c) ->
  forall s, node_id_to_node_cache (primed fp l s) !! i
            = node_id_to_node_cache s !! i.
Proof.
  induction l as [|c l IH]; intros Hne s; [reflexivity|].
  unfold primed in *. cbn [fold_left]. rewrite IH.
  - unfold primed_with.
    assert (H : node_id_to_node_cache (if is_available c then with_node c s else s) !! i
                = node_id_to_node_cache s !! i).
    { destruct (is_available c); [|reflexivity]. autorewrite with self.
      apply lookup_insert_ne, not_eq_sym, Hne. left. reflexivity. }
    destruct (truthy fp); autorewrite with self; exact H.
  - intros c' Hc'. apply Hne. right. exact Hc'.
Qed.

Lemma child_path_inj fp a b : fp +:+ "/" +:+ a = fp +:+ "/" +:+ b -> a = b.
Proof.
  intros H. apply (inj (String.app fp)) in H. apply (inj (String.app "/")) in H.
  exact H.
Qed.

Lemma primed_path fp (l : list Node) c :
  Path.nonempty fp = true -> List.NoDup (List.map node_name l) -> In c l ->
  forall s, path_to_node_id_cache (primed (Some fp) l s)
              !! (fp +:+ "/" +:+ node_name c) = Some (node_id c).
Proof.
  intros Hfp. induction l as [|c0 l IH]; intros Hnd Hin s; [destruct Hin|].
  simpl in Hnd. apply NoDup_cons_iff in Hnd as [Hc0 Hnd].
  unfold primed in *. cbn [fold_left]. destruct Hin as [-> | Hin].
  - fold (primed (Some fp) l (primed_with (Some fp) s c)).
    rewrite primed_path_other.
    + unfold primed_with, truthy. rewrite Hfp. cbn [from_option].
      autorewrite with self. apply lookup_insert_eq.
    + intros c' Hc' E. apply child_path_inj in E. apply Hc0. rewrite E.
      apply in_map. exact Hc'.
  - apply IH; assumption.
Qed.

Lemma primed_node fp (l : list Node) c :
  is_available c = true -> List.NoDup (List.map node_id l) -> In c l ->
  forall s, node_id_to_node_cache (primed fp l s) !! node_id c = Some c.
Proof.
  intros Ha. induction l as [|c0 l IH]; intros Hnd Hin s; [destruct Hin|].
  simpl in Hnd. apply NoDup_cons_iff in Hnd as [Hc0 Hnd].
  unfold primed in *. cbn [fold_left]. destruct Hin as [-> | Hin].
  - fold (primed fp l (primed_with fp s c)).
    rewrite primed_ids_other.
    + unfold primed_with. rewrite Ha.
      destruct (truthy fp); autorewrite with self; apply lookup_insert_eq.
    + intros c' Hc' E. apply Hc0. rewrite E. apply in_map. exact Hc'.
  - apply IH; assumption.
Qed.

(** X12. A listing given the folder's path primes the caches: when the
    listed nodes have pairwise different names and ids, every available
    node of the listing is afterwards resolved under
    folder path + "/" + name from the caches alone, in either mode:
    [resolve] returns that node and leaves [self], and so the list of
    statements sent, as it was. *)
Theorem list_children_primes_resolve :
  forall (f fp : string) (trash t : bool) (s : Self) (folders files : list Node) (c : Node),
    Path.nonempty fp = true ->
    fst (list_children f trash (Some fp) s) = Return (folders, files) ->
    List.NoDup (List.map node_name (folders ++ files)) ->
    List.NoDup (List.map node_id (folders ++ files)) ->
    In c (folders ++ files) -> is_available c = true ->
    resolve (fp +:+ "/" +:+ node_name c) t (snd (list_children f trash (Some fp) s))
    = (Return (Some c), snd (list_children f trash (Some fp) s)).
Proof.
  intros f fp trash t s folders files c Hfp Hres Hnames Hids Hin Ha.
  rewrite list_children_eq in *. cbv zeta in *. cbn [fst snd] in *.
  injection Hres as <- <-.
  apply resolve_cached.
  - apply primed_path; assumption.
  - apply primed_node; assumption.
Qed.

Lemma list_children_primes_resolve_witness :
  resolve ("/a" +:+ "/" +:+ node_name (Node_init (Sample.file_row Sample.b (Sample.file "B" 3))))
    false (snd (list_children "A" false (Some "/a") (fresh Sample.tree "R")))
  = (Return (Some (Node_init (Sample.file_row Sample.b (Sample.file "B" 3)))),
     snd (list_children "A" false (Some "/a") (fresh Sample.tree "R"))).
Proof.
  apply (list_children_primes_resolve "A" "/a" false false (fresh Sample.tree "R")
           [] [Node_init (Sample.file_row Sample.b (Sample.file "B" 3))]
           (Node_init (Sample.file_row Sample.b (Sample.file "B" 3)))).
  - reflexivity.
  - vm_compute. reflexivity.
  - repeat constructor. simpl. tauto.
  - repeat constructor. simpl. tauto.
  - left. reflexivity.
  - reflexivity.
Defined.

(** ** Names and counts of children and parents *)

Lemma sorted_map {A B} (f : A -> B) (le : B -> B -> bool) (l : list A) :
  sorted (fun a b => le (f a) (f b)) l -> sorted le (List.map f l).
Proof.
  induction l as [|x l IH]; simpl; [auto|].
  intros [Hb Hs]. split; [|auto].
  intros y Hy. apply in_map_iff in Hy as (z & <- & Hz). apply Hb, Hz.
Qed.

Lemma sorted_filter {A} (le : A -> A -> bool) (p : A -> bool) (l : list A) :
  sorted le l -> sorted le (List.filter p l).
Proof.
  induction l as [|x l IH]; simpl; [auto|].
  intros [Hb Hs]. destruct (p x); simpl; [split|]; auto.
  intros y Hy. apply filter_In in Hy as [Hy _]. auto.
Qed.

Lemma rows_childrens_names f st :
  rows (CHILDRENS_NAMES_SQL f) st
  = List.map (fun np => n_name (fst np))
      (Text.order_by (fun a b => String.leb (n_name (fst a)) (n_name (fst b)))
         (List.filter
            (fun np => String.eqb (p_parent (snd np)) f && Sql.available (fst np))
            (Sql.join_child st))).
Proof. reflexivity. Qed.

(** X13. [childrens_names] never raises.  It returns names in ascending
    order, and a name is returned exactly when the folder has an
    available child of that name: children in the trash are left out. *)
Theorem childrens_names_sorted_available :
  forall (f : string) (s : Self),
    exists names,
      fst (childrens_names f s) = Return names /\
      sorted String.leb names /\
      forall name,
        In name names <->
        exists np, In np (Sql.join_child (conn s)) /\ p_parent (snd np) = f /\
                   Sql.available (fst np) = true /\ n_name (fst np) = name.
Proof.
  intros f s. unfold childrens_names. rewrite execute_select by reflexivity.
  cbn [fst]. eexists. split; [reflexivity|]. rewrite rows_childrens_names. split.
  - apply sorted_map.
    apply (order_by_sorted (fun a b : NodesRow * ParentageRow =>
                              String.leb (n_name (fst a)) (n_name (fst b)))).
    + intros a b. apply String.leb_total.
    + intros a b c. apply leb_trans.
  - intros name. rewrite in_map_iff. split.
    + intros (np & <- & Hin). apply in_order_by, filter_In in Hin as [Hin Hc].
      apply andb_prop in Hc as [Hp Ha]. apply String.eqb_eq in Hp.
      exists np. auto.
    + intros (np & Hin & Hp & Ha & <-). exists np. split; [reflexivity|].
      apply in_order_by, filter_In. split; [exact Hin|].
      rewrite Ha, andb_true_r. apply String.eqb_eq. exact Hp.
Qed.

(** X14. [num_children] agrees with [childrens_names]: asked after it,
    it returns the number of names that [childrens_names] returned. *)
Theorem num_children_counts_childrens_names :
  forall (f : string) (s : Self),
    exists names,
      fst (childrens_names f s) = Return names /\
      fst (num_children f (snd (childrens_names f s)))
      = Return (Z.of_nat (List.length names)).
Proof.
  intros f s. unfold childrens_names, num_children.
  rewrite !execute_select by reflexivity. cbn [fst snd].
  eexists. split; [reflexivity|]. f_equal.
  rewrite conn_logged by reflexivity.
  rewrite rows_childrens_names, length_map, length_order_by. reflexivity.
Qed.

Lemma length_filter_insert_by {A} (le : A -> A -> bool) (p : A -> bool) x l :
  List.length (List.filter p (Text.insert_by le x l))
  = List.length (List.filter p (x :: l)).
Proof.
  induction l as [|y l IH]; [reflexivity|]. cbn [Text.insert_by].
  destruct (le x y); [reflexivity|].
  cbn [List.filter] in *. destruct (p y); destruct (p x); cbn [List.length] in *; lia.
Qed.

Lemma length_filter_order_by {A} (le : A -> A -> bool) (p : A -> bool) l :
  List.length (List.filter p (Text.order_by le l)) = List.length (List.filter p l).
Proof.
  induction l as [|x l IH]; [reflexivity|].
  cbn [Text.order_by fold_right]. fold (Text.order_by le l).
  rewrite length_filter_insert_by. cbn [List.filter].
  destruct (p x); cbn [List.length]; rewrite IH; reflexivity.
Qed.

Lemma length_available_with_files st (l : list (NodesRow * ParentageRow)) :
  List.NoDup (List.map f_id (files st)) ->
  List.length (List.filter (fun r => is_available (Node_init r)) (Sql.with_files st l))
  = List.length (List.filter (fun np => Sql.available (fst np)) l).
Proof.
  intros Hnd. induction l as [|np l IH]; [reflexivity|].
  unfold Sql.with_files in *. cbn [flat_map List.filter].
  rewrite List.filter_app, List.length_app, IH.
  destruct (Sql.left_join_files st (fst np)) as [|row rest] eqn:E.
  - exfalso. exact (left_join_nonempty _ _ E).
  - assert (Hin : In row (Sql.left_join_files st (fst np))) by (rewrite E; left; reflexivity).
    rewrite (left_join_single st _ row Hnd Hin) in E. injection E as <-.
    cbn [List.filter].
    change (is_available (Node_init row)) with (Sql.available (r_n row)).
    rewrite (in_left_join _ _ _ Hin).
    destruct (Sql.available (fst np)); reflexivity.
Qed.

Lemma filter_filter {A} (p q : A -> bool) (l : list A) :
  List.filter (fun x => p x && q x) l = List.filter q (List.filter p l).
Proof.
  induction l as [|x l IH]; [reflexivity|]. cbn [List.filter].
  destruct (p x); cbn [andb List.filter]; rewrite IH; reflexivity.
Qed.

Lemma filter_map_length {A B} (f : A -> B) (p : B -> bool) (l : list A) :
  List.length (List.filter p (List.map f l))
  = List.length (List.filter (fun x => p (f x)) l).
Proof.
  induction l as [|x l IH]; [reflexivity|]. cbn [List.map List.filter].
  destruct (p (f x)); cbn [List.length]; rewrite IH; reflexivity.
Qed.

(** X15. When file ids are a primary key, [num_parents] returns the
    number of available parents of the node, the parents that [all_path]
    follows. *)
Theorem num_parents_counts_available_parents :
  forall (id : string) (s : Self),
    List.NoDup (List.map f_id (files (conn s))) ->
    fst (num_parents id s)
    = Return (Z.of_nat (List.length (available_parents (conn s) id))).
Proof.
  intros id s Hnd. unfold num_parents. rewrite execute_select by reflexivity.
  cbn [fst]. f_equal. unfold available_parents.
  change (rows (PARENTS_SQL id) (conn s))
    with (Text.order_by Sql.by_name
            (Sql.with_files (conn s) (Sql.parent_edges (conn s) id))).
  rewrite filter_map_length, length_filter_order_by,
    (length_available_with_files _ _ Hnd).
  unfold Sql.parent_edges. rewrite <- filter_filter. reflexivity.
Qed.

Lemma num_parents_counts_available_parents_witness :
  fst (num_parents "N" (fresh Sample.shared "R"))
  = Return (Z.of_nat (List.length (available_parents (conn (fresh Sample.shared "R")) "N"))).
Proof.
  apply (num_parents_counts_available_parents "N" (fresh Sample.shared "R")).
  simpl. repeat (constructor; [simpl; intuition discriminate|]). constructor.
Defined.

(** ** Sizes *)

Lemma sum_sizes_acc (fs : list FilesRow) :
  forall acc : option Z,
    match fold_left
            (fun acc f =>
               match f_size f, acc with
               | Some x, Some a => Some (a + x)%Z
               | Some x, None => Some x
               | None, _ => acc
               end) fs acc with
    | Some t => t
    | None => 0%Z
    end
    = (match acc with Some a => a | None => 0 end
       + fold_right Z.add 0
           (List.map (fun f => match f_size f with Some x => x | None => 0 end) fs))%Z.
Proof.
  induction fs as [|f fs IH]; intros acc; cbn [fold_left fold_right List.map].
  - destruct acc; lia.
  - rewrite IH. destruct (f_size f), acc; lia.
Qed.

(** X16. [calculate_usage] never raises and returns the sum of the sizes
    of all file rows, a NULL size counting as 0: it is 0 for a store
    without files, and files of trashed nodes are counted too. *)
Theorem calculate_usage_sums_file_sizes :
  forall s : Self,
    fst (calculate_usage s)
    = Return (fold_right Z.add 0%Z
                (List.map (fun f => match f_size f with Some x => x | None => 0%Z end)
                   (files (conn s)))).
Proof.
  intros s. unfold calculate_usage, bind. rewrite execute_select by reflexivity.
  pose proof (sum_sizes_acc (files (conn s)) None) as H.
  change (rows USAGE_SQL (conn s)) with (Sql.sum_sizes (files (conn s))).
  unfold Sql.sum_sizes. destruct (fold_left _ (files (conn s)) None) as [x|];
    cbn [ret fst]; f_equal.
  - destruct (Z.eqb_spec x 0); lia.
  - lia.
Qed.

Lemma count_nonzero {A} (l : list A) :
  negb (Z.eqb (Sql.count l) 0) = true <-> exists x, In x l.
Proof.
  unfold Sql.count. destruct l as [|x l].
  - simpl. split; [discriminate | intros (x & [])].
  - cbn [List.length]. destruct (Z.eqb_spec (Z.of_nat (S (List.length l))) 0) as [E|_];
      [lia|]. simpl. split; [|reflexivity]. intros _. exists x. left. reflexivity.
Qed.

(** X17. [file_size_exists] never raises, and answers true exactly when
    some file row of that size belongs to an available node; whether
    the folders above that node are in the trash plays no part. *)
Theorem file_size_exists_iff_available_file :
  forall (size : Z) (s : Self),
    exists b,
      fst (file_size_exists size s) = Return b /\
      (b = true <->
       exists f n, In f (files (conn s)) /\ In n (nodes (conn s)) /\
                   n_id n = f_id f /\ f_size f = Some size /\
                   Sql.available n = true).
Proof.
  intros size s. unfold file_size_exists, bind. rewrite execute_select by reflexivity.
  cbn [ret fst]. eexists. split; [reflexivity|].
  change (rows (FILE_SIZE_EXISTS_SQL size) (conn s))
    with (Sql.count
            (List.flat_map
               (fun f =>
                  List.filter
                    (fun n => String.eqb (n_id n) (f_id f)
                              && Sql.optZ_eqb (f_size f) size && Sql.available n)
                    (nodes (conn s)))
               (files (conn s)))).
  rewrite count_nonzero. split.
  - intros (n & Hn). apply in_flat_map in Hn as (f & Hf & Hn).
    apply filter_In in Hn as [Hn Hc].
    apply andb_prop in Hc as [Hc Ha]. apply andb_prop in Hc as [Hi Hs].
    apply String.eqb_eq in Hi. exists f, n. split_and!; auto.
    unfold Sql.optZ_eqb in Hs. destruct (f_size f) as [x|]; [|discriminate].
    apply Z.eqb_eq in Hs. congruence.
  - intros (f & n & Hf & Hn & Hi & Hs & Ha). exists n.
    apply in_flat_map. exists f. split; [exact Hf|].
    apply filter_In. split; [exact Hn|].
    rewrite Ha, Hs, andb_true_r. cbn [Sql.optZ_eqb]. rewrite Z.eqb_refl, andb_true_r.
    apply String.eqb_eq. exact Hi.
Qed.

(** ** Searches *)










(** X19. [find_by_md5] never raises.  It returns, in ascending order of
    name, exactly the nodes built from the rows of the node and file
    join whose md5 is the given one: a node without a file row, a folder
    for instance, is never returned. *)
Theorem find_by_md5_finds_exactly :
  forall (md5 : string) (s : Self),
    exists l,
      fst (find_by_md5 md5 s) = Return l /\
      sorted (fun a b => String.leb (node_name a) (node_name b)) l /\
      forall n,
        In n l <->
        exists row, In row (Sql.all_with_files (conn s)) /\ n = Node_init row /\
                    node_md5 n = Some md5.
Proof.
  intros md5 s. unfold find_by_md5, bind. rewrite execute_select by reflexivity.
  cbn [ret fst]. eexists. split; [reflexivity|].
  change (rows (FIND_BY_MD5_SQL md5) (conn s))
    with (Text.order_by Sql.by_name
            (List.filter
               (fun r => match r_f r with
                         | Some c => Sql.opt_eqb (col_md5 c) md5
                         | None => false
                         end)
               (Sql.all_with_files (conn s)))).
  assert (Hmd5 : forall r,
             match r_f r with
             | Some c => Sql.opt_eqb (col_md5 c) md5
             | None => false
             end = true <-> node_md5 (Node_init r) = Some md5).
  { intros r. cbn [node_md5 Node_init]. destruct (r_f r) as [c|]; [|split; discriminate].
    unfold Sql.opt_eqb. destruct (col_md5 c) as [m|]; [|split; discriminate].
    rewrite String.eqb_eq. split; congruence. }
  split.
  - apply sorted_map.
    apply (order_by_sorted Sql.by_name).
    + intros a b. apply String.leb_total.
    + intros a b c. apply leb_trans.
  - intros n. rewrite in_map_iff. split.
    + intros (r & <- & Hr). apply in_order_by, filter_In in Hr as [Hr Hc].
      exists r. split_and!; auto. apply Hmd5, Hc.
    + intros (r & Hr & -> & Hm). exists r. split; [reflexivity|].
      apply in_order_by, filter_In. split; [exact Hr | apply Hmd5, Hm].
Qed.

(** X20. Both lists that [list_children] returns are in ascending order
    of name, in trash mode too. *)
Theorem list_children_sorted_by_name :
  forall (f : string) (trash : bool) (fp : option string) (s : Self),
    exists folders files,
      fst (list_children f trash fp s) = Return (folders, files) /\
      sorted (fun a b => String.leb (node_name a) (node_name b)) folders /\
      sorted (fun a b => String.leb (node_name a) (node_name b)) files.
Proof.
  intros f trash fp s. rewrite list_children_eq. cbv zeta. cbn [fst].
  eexists. eexists. split; [reflexivity|].
  assert (H : sorted (fun a b => String.leb (node_name a) (node_name b))
                (child_nodes (conn s) f)).
  { unfold child_nodes. apply sorted_map.
    change (rows (CHILDREN_SQL f) (conn s))
      with (Text.order_by Sql.by_name
              (Sql.with_files (conn s)
                 (List.filter (fun np => String.eqb (p_parent (snd np)) f)
                    (Sql.join_child (conn s))))).
    apply (order_by_sorted Sql.by_name).
    - intros a b. apply String.leb_total.
    - intros a b c. apply leb_trans. }
  split; apply sorted_filter; exact H.
Qed.

(** ** The caches only grow *)

Lemma retains_refl s : retains s s.
Proof. split; reflexivity. Qed.

Lemma retains_trans s1 s2 s3 : retains s1 s2 -> retains s2 s3 -> retains s1 s3.
Proof. intros [A B] [C D]. split; etrans; eauto. Qed.

Lemma grows_ret {A} (a : A) : grows (ret a).
Proof. intros s. apply retains_refl. Qed.

Lemma grows_raise {A} e : grows (@raise A e).
Proof. intros s. apply retains_refl. Qed.

Lemma grows_out_of_fuel {A} : grows (@out_of_fuel A).
Proof. intros s. apply retains_refl. Qed.

Lemma grows_get_root_id : grows get_root_id.
Proof. intros s. apply retains_refl. Qed.

Lemma grows_cached_node i : grows (cached_node i).
Proof.
  intros s. unfold cached_node. destruct (node_id_to_node_cache s !! i); apply retains_refl.
Qed.

Lemma grows_cached_path p : grows (cached_path p).
Proof.
  intros s. unfold cached_path. destruct (path_to_node_id_cache s !! p); apply retains_refl.
Qed.

Lemma grows_cache_node n : grows (cache_node n).
Proof. intros s. split; simpl; [apply dom_insert_subseteq | reflexivity]. Qed.

Lemma grows_cache_path p i : grows (cache_path p i).
Proof. intros s. split; simpl; [reflexivity | apply dom_insert_subseteq]. Qed.

Lemma grows_execute {R} (q : Statement R) : grows (execute q).
Proof. intros s. unfold execute. destruct (run q (conn s)). split; reflexivity. Qed.

Lemma grows_bind {A B} (m : M A) (k : A -> M B) :
  grows m -> (forall a, grows (k a)) -> grows (bind m k).
Proof.
  intros Hm Hk s. unfold bind. specialize (Hm s).
  destruct (m s) as [[a|e|] s1]; simpl in *; auto.
  eapply retains_trans; [exact Hm | apply Hk].
Qed.

Lemma grows_try_return {A} (body rest : M A) :
  grows body -> grows rest -> grows (try_return body rest).
Proof.
  intros Hb Hr s. unfold try_return. specialize (Hb s).
  destruct (body s) as [[a|e|] s1]; simpl in *; auto.
  eapply retains_trans; [exact Hb | apply Hr].
Qed.

Lemma grows_for_each {A B} (l : list A) (body : A -> B -> M B) :
  (forall x acc, grows (body x acc)) -> forall acc, grows (for_each l acc body).
Proof.
  intros Hbody. induction l as [|x l IH]; intros acc; simpl.
  - apply grows_ret.
  - apply grows_bind; auto.
Qed.

Ltac grows_step :=
  first
    [ assumption
    | apply grows_ret
    | apply grows_raise
    | apply grows_out_of_fuel
    | apply grows_get_root_id
    | apply grows_cached_node
    | apply grows_cached_path
    | apply grows_cache_path
    | apply grows_cache_node
    | apply grows_execute
    | apply grows_try_return
    | apply grows_bind; [ | intros ? ]
    | apply grows_for_each; intros ? ?
    | match goal with
      | |- grows (let (_, _) := ?x in _) => destruct x
      | |- grows (if ?b then _ else _) => destruct b
      | |- grows (match ?x with _ => _ end) => destruct x
      end ].

Ltac grows_tac := repeat grows_step.

Lemma grows_get_node i : grows (get_node i).
Proof. unfold get_node. grows_tac. Qed.

Lemma grows_resolve_rec fuel : forall path trash, grows (resolve_rec fuel path trash).
Proof.
  pose proof grows_get_node.
  induction fuel as [|fuel IH]; intros path trash; cbn [resolve_rec].
  - apply grows_out_of_fuel.
  - unfold get_root_node. grows_tac; auto.
Qed.

Lemma grows_list_children f trash fp : grows (list_children f trash fp).
Proof. unfold list_children. grows_tac. Qed.

Lemma grows_first_path fuel : forall i, grows (first_path fuel i).
Proof. induction fuel as [|fuel IH]; intros i; simpl; grows_tac; auto. Qed.

Lemma grows_all_path fuel : forall i sfx, grows (all_path fuel i sfx).
Proof.
  pose proof grows_get_node.
  induction fuel as [|fuel IH]; intros i sfx; simpl; grows_tac; auto.
Qed.

Lemma grows_perform c : grows (perform c).
Proof.
  pose proof grows_get_node.
  destruct c; unfold perform, forget;
    (apply grows_bind; [ | intros; apply grows_ret ]);
    unfold get_root_node, get_conflicting_node, resolve_id, resolve,
      childrens_names, get_node_count, get_folder_count, get_file_count,
      calculate_usage, num_children, num_parents, get_child,
      list_trashed_children, find_by_name, find_by_md5, find_by_regex,
      file_size_exists, get_property, get_content;
    first
      [ apply grows_get_node
      | apply grows_resolve_rec
      | apply grows_list_children
      | apply grows_first_path
      | apply grows_all_path
      | apply grows_bind;
        [ first [ apply grows_resolve_rec | apply grows_list_children
                | apply grows_get_root_id ]
        | intros; grows_tac; auto ]
      | grows_tac ].
Qed.

(** X21. No sequence of calls of the query surface evicts a cache
    entry: an id that is cached stays cached, and so does a path,
    whatever is called afterwards. *)
Theorem caches_never_evict :
  forall (s0 s : Self),
    reachable any_call s0 s ->
    dom (node_id_to_node_cache s0) ⊆ dom (node_id_to_node_cache s) /\
    dom (path_to_node_id_cache s0) ⊆ dom (path_to_node_id_cache s).
Proof.
  intros s0 s H. change (retains s0 s).
  induction H as [| s c Hreach IH Hc]; [apply retains_refl|].
  eapply retains_trans; [exact IH | apply grows_perform].
Qed.

Lemma caches_never_evict_witness :
  dom (node_id_to_node_cache (snd (perform (Resolve "/a/b" false) (fresh Sample.tree "R"))))
  ⊆ dom (node_id_to_node_cache
           (snd (perform (List_children "A" true None)
                   (snd (perform (Resolve "/a/b" false) (fresh Sample.tree "R")))))) /\
  dom (path_to_node_id_cache (snd (perform (Resolve "/a/b" false) (fresh Sample.tree "R"))))
  ⊆ dom (path_to_node_id_cache
           (snd (perform (List_children "A" true None)
                   (snd (perform (Resolve "/a/b" false) (fresh Sample.tree "R")))))).
Proof.
  apply (caches_never_evict
           (snd (perform (Resolve "/a/b" false) (fresh Sample.tree "R")))
           (snd (perform (List_children "A" true None)
                   (snd (perform (Resolve "/a/b" false) (fresh Sample.tree "R")))))).
  apply reach_call; [apply reach_start | reflexivity].
Defined.
